(** * SKLADITO warehouse API: access control and containment hierarchy

    A shallow embedding of [lan/backend/server.js] (the access-controlled
    server) and of the earlier server without accounts, followed by the
    properties of the access resolver, the container life cycle, the
    invite flow and the update handlers.

    MongoDB collections are lists of schemaless documents in insertion
    order; a document is a finite map from field names to JavaScript
    values. Every handler is a function from the store and the request to
    the new store and the response handed to [res.status(..).json(..)]. *)

From stdpp Require Import gmap strings list fin_maps pretty sorting relations.
From Stdlib Require Import ZArith Lia.

Open Scope string_scope.
Open Scope Z_scope.

(** ** JavaScript values held in documents and request bodies

    The scalar values. Numbers are the integers; fractions and infinities
    are not represented. [VDate] and [VOid] are the driver's [Date] and
    [ObjectId] objects. A key that is absent from an object reads as
    [VUndef].

    A JSON body can also carry objects and arrays. The handlers hand them
    to the store as they come, where an object in a query is read as an
    operator and an array in a document matches each of its elements.
    They are not values of this type: a statement about a field of the
    body, or about what a query finds, covers scalar values. *)
Inductive value :=
| VUndef
| VNull
| VBool (b : bool)
| VNum (n : Z)
| VNaN
| VStr (s : string)
| VDate (ms : Z)
| VOid (hex : string).

#[global] Instance value_eq_dec : EqDecision value.
Proof. solve_decision. Defined.

Abbreviation doc := (gmap string value).

(** [d.k] *)
Definition get (d : doc) (k : string) : value := default VUndef (d !! k).

(** [!!v] *)
Definition truthy (v : value) : bool :=
  match v with
  | VUndef | VNull | VNaN => false
  | VBool b => b
  | VNum n => negb (n =? 0)
  | VStr s => negb (String.eqb s "")
  | VDate _ | VOid _ => true
  end.

(** [a || b] *)
Definition js_or (a b : value) : value := if truthy a then a else b.

(** [a === b]. Objects are compared by reference, and every [Date] or
    [ObjectId] read from the store is an object of its own, so the
    comparison is false on them; [NaN] is not equal to itself. *)
Definition strict_eq (a b : value) : bool :=
  match a with
  | VNaN | VDate _ | VOid _ => false
  | _ => bool_decide (a = b)
  end.

(** SameValueZero, the equality of [Set]: as [===] but [NaN] equals [NaN]. *)
Definition same_value_zero (a b : value) : bool :=
  match a with
  | VDate _ | VOid _ => false
  | _ => bool_decide (a = b)
  end.

(** The double nearest to the integer [z], ties to the even significand:
    a number is a double, and an integer of 2^53 or more has one only
    when its low bits are zero. *)
Definition round_to_double (z : Z) : Z :=
  let a := Z.abs z in
  if a <? 2 ^ 53 then z
  else
    let e := Z.log2 a - 52 in
    let q := Z.shiftr a e in
    let r := Z.land a (Z.ones e) in
    let half := 2 ^ (e - 1) in
    let q' := if (half <? r) || ((r =? half) && Z.odd q) then q + 1 else q in
    Z.sgn z * Z.shiftl q' e.

(** [a + 1] with [toStr] the engine's [Date.prototype.toString]. The sum
    of two numbers is rounded to a double. *)
Definition js_plus_one (toStr : Z → string) (a : value) : value :=
  match a with
  | VUndef | VNaN => VNaN
  | VNull => VNum 1
  | VBool b => VNum (if b then 2 else 1)
  | VNum n => VNum (round_to_double (n + 1))
  | VStr s => VStr (s +:+ "1")
  | VDate ms => VStr (toStr ms +:+ "1")
  | VOid h => VStr (h +:+ "1")
  end.

(** ** [Set]: the elements in insertion order

    An object that is added twice is kept once; the model, which takes
    every [Date] and [ObjectId] for an object of its own, keeps both.
    This is not seen by [has], nor by a loop over the elements that looks
    for parents [===] to them. *)
Definition Set_has (s : list value) (x : value) : bool :=
  existsb (same_value_zero x) s.

Definition Set_add (x : value) (s : list value) : list value :=
  if Set_has s x then s else s ++ [x].

(** [new Set(iterable)] *)
Definition Set_of (l : list value) : list value :=
  foldl (λ s x, Set_add x s) [] l.

(** ** The document store *)

(** A query document [{k1: v1, ...}] of scalar values, matched against
    scalar fields by equality. A [null] (or [undefined], which the driver
    sends as [null]) matches a missing field as well. Operators and the
    matching of array elements come with objects and arrays only. *)
Definition field_matches (d : doc) (kv : string * value) : bool :=
  match kv.2 with
  | VNull | VUndef =>
      bool_decide (d !! kv.1 = None) || bool_decide (d !! kv.1 = Some VNull)
  | v => bool_decide (d !! kv.1 = Some v)
  end.

Definition matches (q : list (string * value)) (d : doc) : bool :=
  forallb (field_matches d) q.

(** [find(q).toArray()] *)
Definition find (q : list (string * value)) (coll : list doc) : list doc :=
  List.filter (matches q) coll.

Definition findOne (q : list (string * value)) (coll : list doc) : option doc :=
  head (find q coll).

Definition countDocuments (q : list (string * value)) (coll : list doc) : nat :=
  length (find q coll).

(** The driver stores [undefined] as [null]. *)
Definition to_bson (d : doc) : doc :=
  (λ v, match v with VUndef => VNull | _ => v end) <$> d.

(** [insertOne(d)]: the driver adds a fresh [_id] to the object it is
    given when there is none; [with_id] is that object afterwards. *)
Definition with_id (oid : string) (d : doc) : doc :=
  match d !! "_id" with
  | Some _ => d
  | None => <["_id" := VOid oid]> d
  end.

Definition insertOne (oid : string) (d : doc) (coll : list doc) : list doc :=
  coll ++ [to_bson (with_id oid d)].

(** [updateOne(q, {$set: upd})]: the first match gets the keys of [upd]
    (an empty [$set] changes nothing). *)
Fixpoint updateOne (q : list (string * value)) (upd : doc) (coll : list doc)
  : list doc :=
  match coll with
  | [] => []
  | d :: rest =>
      if matches q d then (upd ∪ d) :: rest
      else d :: updateOne q upd rest
  end.

Definition updateMany (q : list (string * value)) (upd : doc) (coll : list doc)
  : list doc :=
  (λ d, if matches q d then upd ∪ d else d) <$> coll.

Fixpoint deleteOne (q : list (string * value)) (coll : list doc) : list doc :=
  match coll with
  | [] => []
  | d :: rest => if matches q d then rest else d :: deleteOne q rest
  end.

Definition deleteMany (q : list (string * value)) (coll : list doc) : list doc :=
  List.filter (λ d, negb (matches q d)) coll.

Record Store := mkStore {
  users : list doc;
  containers : list doc;
  items : list doc;
  categories : list doc;
  containerAccess : list doc
}.

(** ** The access resolver *)

(** Threading an accumulator through [forEach], stopping at an exception. *)
Fixpoint forEach {A B} (f : B → A → option B) (l : list A) (acc : B) : option B :=
  match l with
  | [] => Some acc
  | x :: rest =>
      match f acc x with
      | Some acc' => forEach f rest acc'
      | None => None
      end
  end.

(** [addChildren(parentId)] of [getAccessibleContainerIds], with the set
    [allAccessible] it mutates passed along. [depth] is the number of
    nested calls the engine's stack still admits; [None] is the
    [RangeError] raised when it is used up. *)
Fixpoint addChildren (depth : nat) (allContainers : list doc)
    (parentId : value) (allAccessible : list value) : option (list value) :=
  match depth with
  | O => None
  | S depth' =>
      forEach
        (λ acc child,
           addChildren depth' allContainers (get child "id")
             (Set_add (get child "id") acc))
        (List.filter (λ c, strict_eq (get c "parent") parentId) allContainers)
        allAccessible
  end.

Definition getAccessibleContainerIds (depth : nat) (st : Store) (userId : value)
  : option (list value) :=
  let allContainers := containers st in
  let ownedIds :=
    Set_of ((λ c, get c "id") <$>
            List.filter (λ c, strict_eq (get c "ownerId") userId) allContainers) in
  let accessRecords := find [("userId", userId)] (containerAccess st) in
  let directAccessIds := Set_of ((λ a, get a "containerId") <$> accessRecords) in
  let rootAccessIds := Set_of (ownedIds ++ directAccessIds) in
  let allAccessible := Set_of rootAccessIds in
  forEach (λ acc id, addChildren depth allContainers id acc)
    rootAccessIds allAccessible.

(** ** Requests, responses and the environment of a request *)

(** What a handler reads besides the store: the clock, the random bytes
    of [generateToken], the [ObjectId] the driver would assign, the call
    depth left on the stack, and the engine's regular expressions and
    date conversions. *)
Record Env := mkEnv {
  now : Z;                                   (* Date.now() *)
  iso_now : string;                          (* new Date().toISOString() *)
  token : string;                            (* generateToken() *)
  oid : string;                              (* the next ObjectId of the driver *)
  stack : nat;                               (* nested calls the stack admits *)
  regexp : string → option (string → bool);  (* new RegExp(q, 'i'); None: SyntaxError *)
  date_string : Z → string;                  (* String(date) *)
  date_parse : string → option Z             (* Date.parse; None: Invalid Date *)
}.

Record Request := mkRequest {
  x_user_id : option string;   (* req.headers['x-user-id'] *)
  param : string;              (* req.params.id, .token or .containerId *)
  query_q : option string;     (* req.query.q *)
  rbody : doc                  (* req.body *)
}.

Inductive field :=
| FVal (v : value)
| FDoc (d : doc)
| FDocs (l : list doc).

(** The argument of [res.json]. *)
Inductive body :=
| BVal (v : value)
| BDoc (d : doc)
| BDocs (l : list doc)
| BObj (fs : list (string * field)).

Record Response := mkResponse { status : Z; payload : body }.

Definition error (code : Z) (msg : string) : Response :=
  mkResponse code (BObj [("error", FVal (VStr msg))]).

Definition success : Response :=
  mkResponse 200 (BObj [("success", FVal (VBool true))]).

(** [const { k1, k2, ...rest } = d] *)
Definition rest_without (ks : list string) (d : doc) : doc :=
  foldr (λ k m, delete k m) d ks.

(** The object [update] of the PUT handlers: one
    [if (req.body.k !== undefined) update.k = req.body.k] per key. *)
Definition collect (ks : list string) (b : doc) : doc :=
  foldr (λ k u, if bool_decide (get b k = VUndef) then u else <[k := get b k]> u)
        ∅ ks.

(** ** Middleware *)

Definition authMiddleware (st : Store) (req : Request) : Response + doc :=
  match x_user_id req with
  | None => inl (error 401 "Не авторизован")
  | Some userId =>
      if String.eqb userId "" then inl (error 401 "Не авторизован")
      else
        match findOne [("id", VStr userId); ("isActive", VBool true)] (users st) with
        | None => inl (error 401 "Пользователь не найден или не активирован")
        | Some user => inr user
        end
  end.

Definition adminOnly (user : doc) : option Response :=
  if negb (truthy (get user "isAdmin")) then Some (error 403 "Доступ запрещён")
  else None.

(** ** Authorisation routes *)

Definition post_auth_login (st : Store) (req : Request) : Store * Response :=
  let code := get (rbody req) "code" in
  if negb (truthy code) then (st, error 400 "Введите код")
  else
    match findOne [("code", code); ("isActive", VBool true)] (users st) with
    | None => (st, error 401 "Неверный код")
    | Some user =>
        let safeUser := delete "_id" (rest_without ["code"] user) in
        (st, mkResponse 200 (BObj [("user", FDoc safeUser)]))
    end.

Definition is_digit (a : Ascii.ascii) : bool :=
  let n := Ascii.nat_of_ascii a in
  ((48 <=? n) && (n <=? 57))%nat.

(** [/^\d+$/.test(s)] *)
Definition all_digits (s : string) : bool :=
  negb (String.eqb s "") && forallb is_digit (String.list_ascii_of_string s).

(** The negation of
    [code.length < 4 || code.length > 6 || !/^\d+$/.test(code)].
    Only a string has a [length]; on another value both comparisons are
    false and the pattern is tried on its conversion to a string. A
    string of digits has as many UTF-16 units as bytes. *)
Definition code_accepted (code : value) : bool :=
  match code with
  | VStr s =>
      all_digits s && (4 <=? String.length s)%nat && (String.length s <=? 6)%nat
  | VNum n => (0 <? n) && (n <? 10 ^ 21)
  | VOid h => all_digits h
  | _ => false
  end.

(** [new Date(v).getTime()], [None] for an invalid date. *)
Definition to_time (env : Env) (v : value) : option Z :=
  match v with
  | VDate ms => Some ms
  | VNum n => if (Z.abs n <=? 8640000000000000) then Some n else None
  | VBool b => Some (if b then 1 else 0)
  | VNull => Some 0
  | VStr s => date_parse env s
  | VOid h => date_parse env h
  | VUndef | VNaN => None
  end.

(** [user.inviteExpires && new Date(user.inviteExpires) < new Date()] *)
Definition invite_expired (env : Env) (user : doc) : bool :=
  truthy (get user "inviteExpires") &&
  match to_time env (get user "inviteExpires") with
  | Some t => t <? now env
  | None => false
  end.

Definition activation (code : value) : doc :=
  <["code" := code]> (<["isActive" := VBool true]>
    (<["inviteToken" := VNull]> (<["inviteExpires" := VNull]> ∅))).

Definition post_auth_activate (env : Env) (st : Store) (req : Request)
  : Store * Response :=
  let inviteToken := get (rbody req) "inviteToken" in
  let code := get (rbody req) "code" in
  if negb (truthy inviteToken) || negb (truthy code)
  then (st, error 400 "Заполните все поля")
  else if negb (code_accepted code)
  then (st, error 400 "Код должен быть от 4 до 6 цифр")
  else
    match findOne [("code", code); ("isActive", VBool true)] (users st) with
    | Some _ => (st, error 400 "Этот код уже занят, выберите другой")
    | None =>
        match findOne [("inviteToken", inviteToken); ("isActive", VBool false)]
                (users st) with
        | None => (st, error 404 "Приглашение не найдено или уже использовано")
        | Some user =>
            if invite_expired env user then (st, error 400 "Приглашение истекло")
            else
              let users' :=
                updateOne [("id", get user "id")] (activation code) (users st) in
              let st' := mkStore users' (containers st) (items st) (categories st)
                           (containerAccess st) in
              match findOne [("id", get user "id")] users' with
              | None => (st', error 500 "Cannot destructure 'updated' as it is null.")
              | Some updated =>
                  let safeUser := delete "_id" (rest_without ["code"] updated) in
                  (st', mkResponse 200 (BObj [("user", FDoc safeUser)]))
              end
        end
    end.

Definition get_auth_invite (env : Env) (st : Store) (req : Request)
  : Store * Response :=
  match findOne [("inviteToken", VStr (param req)); ("isActive", VBool false)]
          (users st) with
  | None => (st, error 404 "Приглашение не найдено")
  | Some user =>
      if invite_expired env user then (st, error 400 "Приглашение истекло")
      else (st, mkResponse 200 (BObj [("name", FVal (get user "name"));
                                      ("id", FVal (get user "id"))]))
  end.

(** ** Users (administrators only) *)

Definition get_users (st : Store) : Store * Response :=
  (st, mkResponse 200 (BDocs (rest_without ["code"; "_id"] <$> users st))).

Definition week : Z := 7 * 24 * 60 * 60 * 1000.

Definition post_users (env : Env) (st : Store) (req : Request) : Store * Response :=
  let name := get (rbody req) "name" in
  let isAdmin := get (rbody req) "isAdmin" in
  if negb (truthy name) then (st, error 400 "Укажите имя")
  else
    let inviteToken := VStr (token env) in
    let inviteExpires := VDate (now env + week) in
    let user : doc :=
      <["id" := VStr ("u" +:+ pretty (now env))]> (<["name" := name]>
        (<["code" := VNull]> (<["isAdmin" := js_or isAdmin (VBool false)]>
          (<["isActive" := VBool false]> (<["inviteToken" := inviteToken]>
            (<["inviteExpires" := inviteExpires]> ∅)))))) in
    let st' := mkStore (insertOne (oid env) user (users st)) (containers st)
                 (items st) (categories st) (containerAccess st) in
    let safeUser := rest_without ["code"; "_id"] (with_id (oid env) user) in
    (st', mkResponse 201 (BObj [("user", FDoc safeUser);
                                ("inviteToken", FVal inviteToken)])).

Definition delete_users (st : Store) (user : doc) (req : Request)
  : Store * Response :=
  let id := VStr (param req) in
  if strict_eq id (get user "id") then (st, error 400 "Нельзя удалить самого себя")
  else
    (mkStore (deleteOne [("id", id)] (users st)) (containers st) (items st)
       (categories st) (deleteMany [("userId", id)] (containerAccess st)),
     success).

Definition invitation (env : Env) : doc :=
  <["code" := VNull]> (<["isActive" := VBool false]>
    (<["inviteToken" := VStr (token env)]>
      (<["inviteExpires" := VDate (now env + week)]> ∅))).

Definition post_users_reset (env : Env) (st : Store) (req : Request)
  : Store * Response :=
  (mkStore (updateOne [("id", VStr (param req))] (invitation env) (users st))
     (containers st) (items st) (categories st) (containerAccess st),
   mkResponse 200 (BObj [("inviteToken", FVal (VStr (token env)))])).

(** ** The store's sort order

    [sort({order: 1})] compares values of different types by type first
    (null and missing, numbers, strings, ObjectId, booleans, dates) and
    strings by their bytes. The order among documents with equal keys is
    the store's choice; the model sorts by merging. *)
Definition bson_key (v : value) : nat * Z * string :=
  match v with
  | VUndef | VNull => (0%nat, 0, "")
  | VNaN => (1%nat, 0, "")
  | VNum n => (2%nat, n, "")
  | VStr s => (3%nat, 0, s)
  | VOid h => (4%nat, 0, h)
  | VBool b => (5%nat, if b then 1 else 0, "")
  | VDate ms => (6%nat, ms, "")
  end.

Definition bson_leb (a b : value) : bool :=
  let '(r1, z1, s1) := bson_key a in
  let '(r2, z2, s2) := bson_key b in
  (r1 <? r2)%nat ||
  ((r1 =? r2)%nat && ((z1 <? z2) || ((z1 =? z2) && String.leb s1 s2))).

Definition order_le (a b : doc) : Prop := bson_leb (get a "order") (get b "order").
Definition order_ge (a b : doc) : Prop := order_le b a.

#[global] Instance order_le_dec a b : Decision (order_le a b).
Proof. unfold order_le. apply _. Defined.

#[global] Instance order_ge_dec a b : Decision (order_ge a b).
Proof. unfold order_ge. apply _. Defined.

(** [find().sort({order: 1}).toArray()] *)
Definition sorted_by_order (coll : list doc) : list doc := merge_sort order_le coll.

(** [find().sort({order: -1}).limit(1).toArray()] *)
Definition max_order (coll : list doc) : list doc := take 1 (merge_sort order_ge coll).

(** ** Containers *)

Definition get_sync (env : Env) (st : Store) (user : doc) : Store * Response :=
  let reply containers items :=
    mkResponse 200 (BObj [("containers", FDocs containers);
                          ("items", FDocs items);
                          ("categories", FDocs (sorted_by_order (categories st)))]) in
  if truthy (get user "isAdmin") then (st, reply (containers st) (items st))
  else
    match getAccessibleContainerIds (stack env) st (get user "id") with
    | None => (st, error 500 "Maximum call stack size exceeded")
    | Some accessibleIds =>
        let containers :=
          List.filter (λ c, Set_has accessibleIds (get c "id")) (containers st) in
        let idsSet := Set_of ((λ c, get c "id") <$> containers) in
        let items := List.filter (λ i, Set_has idsSet (get i "container")) (items st) in
        (st, reply containers items)
    end.

Definition get_containers (env : Env) (st : Store) (user : doc) : Store * Response :=
  if truthy (get user "isAdmin") then (st, mkResponse 200 (BDocs (containers st)))
  else
    match getAccessibleContainerIds (stack env) st (get user "id") with
    | None => (st, error 500 "Maximum call stack size exceeded")
    | Some accessibleIds =>
        (st, mkResponse 200 (BDocs
           (List.filter (λ c, Set_has accessibleIds (get c "id")) (containers st))))
    end.

(** The [ownerId] chosen by POST /containers. *)
Definition new_owner (st : Store) (user : doc) (b : doc) : value :=
  if truthy (get b "parent") then
    match findOne [("id", get b "parent")] (containers st) with
    | Some parentContainer => js_or (get parentContainer "ownerId") (get user "id")
    | None => get user "id"
    end
  else get user "id".

Definition new_container (env : Env) (st : Store) (user : doc) (b : doc) : doc :=
  <["id" := VStr ("c" +:+ pretty (now env))]> (<["name" := get b "name"]>
    (<["number" := js_or (get b "number") VNull]>
      (<["photo" := js_or (get b "photo") VNull]>
        (<["parent" := js_or (get b "parent") VNull]>
          (<["ownerId" := new_owner st user b]>
            (<["created" := VStr (iso_now env)]> ∅)))))).

Definition post_containers (env : Env) (st : Store) (user : doc) (req : Request)
  : Store * Response :=
  let container := new_container env st user (rbody req) in
  (mkStore (users st) (insertOne (oid env) container (containers st)) (items st)
     (categories st) (containerAccess st),
   mkResponse 201 (BDoc (with_id (oid env) container))).

(** [res.json(await findOne(..))]: the document, or [null]. *)
Definition json_found (o : option doc) : Response :=
  mkResponse 200 (match o with Some d => BDoc d | None => BVal VNull end).

Definition container_keys : list string := ["name"; "number"; "photo"; "parent"].

Definition put_containers (st : Store) (req : Request) : Store * Response :=
  let id := VStr (param req) in
  let update := collect container_keys (rbody req) in
  let containers' := updateOne [("id", id)] update (containers st) in
  (mkStore (users st) containers' (items st) (categories st) (containerAccess st),
   json_found (findOne [("id", id)] containers')).

Definition delete_containers (st : Store) (req : Request) : Store * Response :=
  let id := VStr (param req) in
  let children := countDocuments [("parent", id)] (containers st) in
  if (0 <? children)%nat then (st, error 400 "Container has nested containers")
  else
    let items_ := countDocuments [("container", id)] (items st) in
    if (0 <? items_)%nat then (st, error 400 "Container has items")
    else
      (mkStore (users st) (deleteOne [("id", id)] (containers st)) (items st)
         (categories st) (deleteMany [("containerId", id)] (containerAccess st)),
       success).

(** ** Items *)

Definition get_items (st : Store) : Store * Response :=
  (st, mkResponse 200 (BDocs (items st))).

Definition new_item (env : Env) (b : doc) : doc :=
  <["id" := VStr ("i" +:+ pretty (now env))]> (<["name" := get b "name"]>
    (<["quantity" := js_or (get b "quantity") (VNum 1)]>
      (<["minQuantity" := js_or (get b "minQuantity") (VNum 0)]>
        (<["category" := js_or (get b "category") VNull]>
          (<["photo" := js_or (get b "photo") VNull]>
            (<["container" := get b "container"]>
              (<["created" := VStr (iso_now env)]> ∅))))))).

Definition post_items (env : Env) (st : Store) (req : Request) : Store * Response :=
  let item := new_item env (rbody req) in
  (mkStore (users st) (containers st) (insertOne (oid env) item (items st))
     (categories st) (containerAccess st),
   mkResponse 201 (BDoc (with_id (oid env) item))).

Definition item_keys : list string :=
  ["name"; "quantity"; "minQuantity"; "category"; "photo"; "container"].

Definition put_items (st : Store) (req : Request) : Store * Response :=
  let id := VStr (param req) in
  let update := collect item_keys (rbody req) in
  let items' := updateOne [("id", id)] update (items st) in
  (mkStore (users st) (containers st) items' (categories st) (containerAccess st),
   json_found (findOne [("id", id)] items')).

Definition delete_items (st : Store) (req : Request) : Store * Response :=
  (mkStore (users st) (containers st) (deleteOne [("id", VStr (param req))] (items st))
     (categories st) (containerAccess st),
   success).

(** ** Categories *)

Definition get_categories (st : Store) : Store * Response :=
  (st, mkResponse 200 (BDocs (sorted_by_order (categories st)))).

Definition post_categories (env : Env) (st : Store) (req : Request)
  : Store * Response :=
  let order :=
    match max_order (categories st) with
    | m :: _ => js_plus_one (date_string env) (get m "order")
    | [] => VNum 1
    end in
  let category : doc :=
    <["id" := VStr ("cat" +:+ pretty (now env))]> (<["name" := get (rbody req) "name"]>
      (<["icon" := js_or (get (rbody req) "icon") (VStr "📁")]>
        (<["order" := order]> ∅))) in
  (mkStore (users st) (containers st) (items st)
     (insertOne (oid env) category (categories st)) (containerAccess st),
   mkResponse 201 (BDoc (with_id (oid env) category))).

Definition category_keys : list string := ["name"; "icon"].

Definition put_categories (st : Store) (req : Request) : Store * Response :=
  let id := VStr (param req) in
  let update := collect category_keys (rbody req) in
  let categories' := updateOne [("id", id)] update (categories st) in
  (mkStore (users st) (containers st) (items st) categories' (containerAccess st),
   json_found (findOne [("id", id)] categories')).

Definition delete_categories (st : Store) (req : Request) : Store * Response :=
  let id := VStr (param req) in
  (mkStore (users st) (containers st)
     (updateMany [("category", id)] {["category" := VNull]} (items st))
     (deleteOne [("id", id)] (categories st)) (containerAccess st),
   success).

(** ** Container access *)

(** The guards shared by granting and revoking: both ids given, the
    container exists, and the caller owns it or is an administrator. *)
Definition access_guard (st : Store) (user : doc) (req : Request)
  : option Response :=
  let containerId := get (rbody req) "containerId" in
  let userId := get (rbody req) "userId" in
  if negb (truthy containerId) || negb (truthy userId)
  then Some (error 400 "containerId и userId обязательны")
  else
    match findOne [("id", containerId)] (containers st) with
    | None => Some (error 404 "Контейнер не найден")
    | Some container =>
        if negb (strict_eq (get container "ownerId") (get user "id"))
           && negb (truthy (get user "isAdmin"))
        then Some (error 403 "Только владелец может управлять доступом")
        else None
    end.

Definition post_container_access (env : Env) (st : Store) (user : doc)
    (req : Request) : Store * Response :=
  let containerId := get (rbody req) "containerId" in
  let userId := get (rbody req) "userId" in
  match access_guard st user req with
  | Some r => (st, r)
  | None =>
      match findOne [("containerId", containerId); ("userId", userId)]
              (containerAccess st) with
      | Some _ => (st, error 400 "Доступ уже есть")
      | None =>
          let row : doc := <["containerId" := containerId]> (<["userId" := userId]> ∅) in
          (mkStore (users st) (containers st) (items st) (categories st)
             (insertOne (oid env) row (containerAccess st)),
           mkResponse 201 (BObj [("success", FVal (VBool true))]))
      end
  end.

Definition delete_container_access (st : Store) (user : doc) (req : Request)
  : Store * Response :=
  let containerId := get (rbody req) "containerId" in
  let userId := get (rbody req) "userId" in
  match access_guard st user req with
  | Some r => (st, r)
  | None =>
      (mkStore (users st) (containers st) (items st) (categories st)
         (deleteOne [("containerId", containerId); ("userId", userId)]
            (containerAccess st)),
       success)
  end.

Definition get_container_access (st : Store) (req : Request) : Store * Response :=
  (st, mkResponse 200
         (BDocs (find [("containerId", VStr (param req))] (containerAccess st)))).

(** ** Search *)

(** [find({ name: regex })]: the documents whose name is a string the
    pattern matches. *)
Definition find_by_name (m : string → bool) (coll : list doc) : list doc :=
  List.filter (λ d, match get d "name" with VStr s => m s | _ => false end) coll.

Definition get_search (env : Env) (st : Store) (req : Request) : Store * Response :=
  let q := default "" (query_q req) in
  match regexp env q with
  | None => (st, error 500 "Invalid regular expression")
  | Some regex =>
      (st, mkResponse 200 (BObj [("containers", FDocs (find_by_name regex (containers st)));
                                 ("items", FDocs (find_by_name regex (items st)))]))
  end.

(** ** The routes of the server *)

Inductive Route :=
| GET_health
| POST_auth_login
| POST_auth_activate
| GET_auth_invite
| GET_users
| POST_users
| DELETE_users
| POST_users_reset
| GET_sync
| GET_containers
| POST_containers
| PUT_containers
| DELETE_containers
| GET_items
| POST_items
| PUT_items
| DELETE_items
| GET_categories
| POST_categories
| PUT_categories
| DELETE_categories
| POST_container_access
| DELETE_container_access
| GET_container_access
| GET_search.

(** [app.METHOD(path, authMiddleware, handler)] *)
Definition authenticated (st : Store) (req : Request)
    (handler : doc → Store * Response) : Store * Response :=
  match authMiddleware st req with
  | inl r => (st, r)
  | inr user => handler user
  end.

(** [app.METHOD(path, authMiddleware, adminOnly, handler)] *)
Definition as_admin (st : Store) (req : Request)
    (handler : doc → Store * Response) : Store * Response :=
  authenticated st req (λ user,
    match adminOnly user with
    | Some r => (st, r)
    | None => handler user
    end).

Definition handle (env : Env) (st : Store) (route : Route) (req : Request)
  : Store * Response :=
  match route with
  | GET_health =>
      (st, mkResponse 200 (BObj [("status", FVal (VStr "ok"));
                                 ("version", FVal (VStr "2.0"))]))
  | POST_auth_login => post_auth_login st req
  | POST_auth_activate => post_auth_activate env st req
  | GET_auth_invite => get_auth_invite env st req
  | GET_users => as_admin st req (λ _, get_users st)
  | POST_users => as_admin st req (λ _, post_users env st req)
  | DELETE_users => as_admin st req (λ user, delete_users st user req)
  | POST_users_reset => as_admin st req (λ _, post_users_reset env st req)
  | GET_sync => authenticated st req (get_sync env st)
  | GET_containers => authenticated st req (get_containers env st)
  | POST_containers => authenticated st req (λ user, post_containers env st user req)
  | PUT_containers => authenticated st req (λ _, put_containers st req)
  | DELETE_containers => authenticated st req (λ _, delete_containers st req)
  | GET_items => authenticated st req (λ _, get_items st)
  | POST_items => authenticated st req (λ _, post_items env st req)
  | PUT_items => authenticated st req (λ _, put_items st req)
  | DELETE_items => authenticated st req (λ _, delete_items st req)
  | GET_categories => authenticated st req (λ _, get_categories st)
  | POST_categories => authenticated st req (λ _, post_categories env st req)
  | PUT_categories => authenticated st req (λ _, put_categories st req)
  | DELETE_categories => authenticated st req (λ _, delete_categories st req)
  | POST_container_access =>
      authenticated st req (λ user, post_container_access env st user req)
  | DELETE_container_access =>
      authenticated st req (λ user, delete_container_access st user req)
  | GET_container_access => authenticated st req (λ _, get_container_access st req)
  | GET_search => authenticated st req (λ _, get_search env st req)
  end.

(** ** Start-up *)

(** [insertMany(ds)], the driver numbering the [_id]s it assigns. *)
Definition insertMany (oids : nat → string) (ds : list doc) (coll : list doc)
  : list doc :=
  coll ++ imap (λ i d, to_bson (with_id (oids i) d)) ds.

Definition default_categories : list doc :=
  [ list_to_map [("id", VStr "cat1"); ("name", VStr "Инструменты");
                 ("icon", VStr "🔧"); ("order", VNum 1)];
    list_to_map [("id", VStr "cat2"); ("name", VStr "Канцелярия");
                 ("icon", VStr "📝"); ("order", VNum 2)];
    list_to_map [("id", VStr "cat3"); ("name", VStr "Бытовые вещи");
                 ("icon", VStr "🏠"); ("order", VNum 3)];
    list_to_map [("id", VStr "cat4"); ("name", VStr "Электроника");
                 ("icon", VStr "⚡"); ("order", VNum 4)];
    list_to_map [("id", VStr "cat5"); ("name", VStr "Одежда");
                 ("icon", VStr "👕"); ("order", VNum 5)] ].

Definition default_admin : doc :=
  list_to_map [("id", VStr "u_admin"); ("name", VStr "Админ");
               ("code", VStr "0000"); ("isAdmin", VBool true);
               ("isActive", VBool true); ("inviteToken", VNull);
               ("inviteExpires", VNull)].

(** [connectDB()]: the default categories when there is no category, the
    default administrator when there is no user. *)
Definition connectDB (oids : nat → string) (st : Store) : Store :=
  let categories' :=
    if (length (find [] (categories st)) =? 0)%nat
    then insertMany oids default_categories (categories st)
    else categories st in
  let users' :=
    if (countDocuments [] (users st) =? 0)%nat
    then insertOne (oids 5%nat) default_admin (users st)
    else users st in
  mkStore users' (containers st) (items st) categories' (containerAccess st).

(** ** The earlier server, without accounts

    Containers, items and categories only: no users, no access rows, no
    [ownerId], [number] or [minQuantity], and no route asks who is
    calling. *)
Module NoAuth.

Record Store := mkStore {
  containers : list doc;
  items : list doc;
  categories : list doc
}.

Definition new_container (env : Env) (b : doc) : doc :=
  <["id" := VStr ("c" +:+ pretty (now env))]> (<["name" := get b "name"]>
    (<["photo" := js_or (get b "photo") VNull]>
      (<["parent" := js_or (get b "parent") VNull]>
        (<["created" := VStr (iso_now env)]> ∅)))).

Definition post_containers (env : Env) (st : Store) (req : Request)
  : Store * Response :=
  let container := new_container env (rbody req) in
  (mkStore (insertOne (oid env) container (containers st)) (items st)
     (categories st),
   mkResponse 201 (BDoc (with_id (oid env) container))).

Definition container_keys : list string := ["name"; "photo"; "parent"].

Definition put_containers (st : Store) (req : Request) : Store * Response :=
  let id := VStr (param req) in
  let update := collect container_keys (rbody req) in
  let containers' := updateOne [("id", id)] update (containers st) in
  (mkStore containers' (items st) (categories st),
   json_found (findOne [("id", id)] containers')).

Definition delete_containers (st : Store) (req : Request) : Store * Response :=
  let id := VStr (param req) in
  let children := countDocuments [("parent", id)] (containers st) in
  if (0 <? children)%nat then (st, error 400 "Container has nested containers")
  else
    let items_ := countDocuments [("container", id)] (items st) in
    if (0 <? items_)%nat then (st, error 400 "Container has items")
    else
      (mkStore (deleteOne [("id", id)] (containers st)) (items st) (categories st),
       success).

Definition item_keys : list string :=
  ["name"; "quantity"; "category"; "photo"; "container"].

Definition put_items (st : Store) (req : Request) : Store * Response :=
  let id := VStr (param req) in
  let update := collect item_keys (rbody req) in
  let items' := updateOne [("id", id)] update (items st) in
  (mkStore (containers st) items' (categories st),
   json_found (findOne [("id", id)] items')).

Definition get_sync (st : Store) : Store * Response :=
  (st, mkResponse 200 (BObj [("containers", FDocs (containers st));
                             ("items", FDocs (items st));
                             ("categories", FDocs (sorted_by_order (categories st)))])).

Definition get_containers (st : Store) : Store * Response :=
  (st, mkResponse 200 (BDocs (containers st))).

Definition get_items (st : Store) : Store * Response :=
  (st, mkResponse 200 (BDocs (items st))).

Definition new_item (env : Env) (b : doc) : doc :=
  <["id" := VStr ("i" +:+ pretty (now env))]> (<["name" := get b "name"]>
    (<["quantity" := js_or (get b "quantity") (VNum 1)]>
      (<["category" := js_or (get b "category") VNull]>
        (<["photo" := js_or (get b "photo") VNull]>
          (<["container" := get b "container"]>
            (<["created" := VStr (iso_now env)]> ∅)))))).

Definition post_items (env : Env) (st : Store) (req : Request) : Store * Response :=
  let item := new_item env (rbody req) in
  (mkStore (containers st) (insertOne (oid env) item (items st)) (categories st),
   mkResponse 201 (BDoc (with_id (oid env) item))).

Definition delete_items (st : Store) (req : Request) : Store * Response :=
  (mkStore (containers st) (deleteOne [("id", VStr (param req))] (items st))
     (categories st),
   success).

Definition get_categories (st : Store) : Store * Response :=
  (st, mkResponse 200 (BDocs (sorted_by_order (categories st)))).

Definition post_categories (env : Env) (st : Store) (req : Request)
  : Store * Response :=
  let order :=
    match max_order (categories st) with
    | m :: _ => js_plus_one (date_string env) (get m "order")
    | [] => VNum 1
    end in
  let category : doc :=
    <["id" := VStr ("cat" +:+ pretty (now env))]> (<["name" := get (rbody req) "name"]>
      (<["icon" := js_or (get (rbody req) "icon") (VStr "📁")]>
        (<["order" := order]> ∅))) in
  (mkStore (containers st) (items st)
     (insertOne (oid env) category (categories st)),
   mkResponse 201 (BDoc (with_id (oid env) category))).

Definition delete_categories (st : Store) (req : Request) : Store * Response :=
  let id := VStr (param req) in
  (mkStore (containers st)
     (updateMany [("category", id)] {["category" := VNull]} (items st))
     (deleteOne [("id", id)] (categories st)),
   success).

Definition get_search (env : Env) (st : Store) (req : Request) : Store * Response :=
  let q := default "" (query_q req) in
  match regexp env q with
  | None => (st, error 500 "Invalid regular expression")
  | Some regex =>
      (st, mkResponse 200 (BObj [("containers", FDocs (find_by_name regex (containers st)));
                                 ("items", FDocs (find_by_name regex (items st)))]))
  end.

(** [connectDB()] of this server seeds the categories only. *)
Definition connectDB (oids : nat → string) (st : Store) : Store :=
  if (length (find [] (categories st)) =? 0)%nat
  then mkStore (containers st) (items st)
         (insertMany oids default_categories (categories st))
  else st.

End NoAuth.

(** ** The containment graph and the access sets *)

(** [x] is the id of a container whose parent link is [p]. *)
Definition child_of (cs : list doc) (p x : value) : Prop :=
  ∃ c, c ∈ cs ∧ strict_eq (get c "parent") p = true ∧ get c "id" = x.

(** A descendant at any depth. *)
Definition descendant (cs : list doc) : relation value := tc (child_of cs).

(** No container is its own ancestor. *)
Definition acyclic (cs : list doc) : Prop := ∀ x, ¬ descendant cs x x.

(** The user with id [u] owns a container with id [x]. *)
Definition owns (st : Store) (u : string) (x : value) : Prop :=
  ∃ c, c ∈ containers st ∧ get c "ownerId" = VStr u ∧ get c "id" = x.

(** A ContainerAccess row names [x] for the user with id [u]. *)
Definition granted (st : Store) (u : string) (x : value) : Prop :=
  ∃ a, a ∈ containerAccess st ∧ get a "userId" = VStr u ∧ get a "containerId" = x.

Definition root_access (st : Store) (u : string) (x : value) : Prop :=
  owns st u x ∨ granted st u x.

(** Owned, granted, or a descendant of an owned or granted container. *)
Definition accessible (st : Store) (u : string) (x : value) : Prop :=
  root_access st u x ∨ ∃ r, root_access st u r ∧ descendant (containers st) r x.

(** No cycle of parent links can be reached from [r]. *)
Definition cycle_free_below (cs : list doc) (r : value) : Prop :=
  ∀ x, rtc (child_of cs) r x → ¬ descendant cs x x.

(** The root access set computed by [getAccessibleContainerIds]. *)
Definition rootAccessIds (st : Store) (userId : value) : list value :=
  Set_of
    (Set_of ((λ c, get c "id") <$>
             List.filter (λ c, strict_eq (get c "ownerId") userId) (containers st))
     ++ Set_of ((λ a, get a "containerId") <$>
                find [("userId", userId)] (containerAccess st))).

(** ** Sample documents *)

Definition user_doc (id name : string) (code : value) (isAdmin isActive : bool)
    (inviteToken inviteExpires : value) : doc :=
  list_to_map [("id", VStr id); ("name", VStr name); ("code", code);
               ("isAdmin", VBool isAdmin); ("isActive", VBool isActive);
               ("inviteToken", inviteToken); ("inviteExpires", inviteExpires)].

Definition container_doc (id : string) (parent : value) (ownerId : string) : doc :=
  list_to_map [("id", VStr id); ("name", VStr id); ("number", VNull);
               ("photo", VNull); ("parent", parent); ("ownerId", VStr ownerId);
               ("created", VStr "2024-01-01T00:00:00.000Z")].

Definition item_doc (id container : string) : doc :=
  list_to_map [("id", VStr id); ("name", VStr id); ("quantity", VNum 1);
               ("minQuantity", VNum 0); ("category", VNull); ("photo", VNull);
               ("container", VStr container);
               ("created", VStr "2024-01-01T00:00:00.000Z")].

Definition access_doc (containerId userId : string) : doc :=
  list_to_map [("containerId", VStr containerId); ("userId", VStr userId)].

Definition category_doc (id : string) (order : Z) : doc :=
  list_to_map [("id", VStr id); ("name", VStr id); ("icon", VStr "*");
               ("order", VNum order)].

Definition admin_doc : doc :=
  user_doc "u_admin" "Админ" (VStr "0000") true true VNull VNull.

Definition bob_doc : doc :=
  user_doc "u_bob" "bob" (VStr "1234") false true VNull VNull.

(** The scenario of the specification: [c2] inside [c1], both owned by
    the administrator, [c1] shared with bob, one item in [c2]; and a
    container [c9] with an item that bob has no access to. *)
Definition warehouse : Store :=
  mkStore [admin_doc; bob_doc]
          [container_doc "c1" VNull "u_admin";
           container_doc "c2" (VStr "c1") "u_admin";
           container_doc "c9" VNull "u_admin"]
          [item_doc "i1" "c2"; item_doc "i9" "c9"]
          [category_doc "cat2" 2; category_doc "cat1" 1]
          [access_doc "c1" "u_bob"].

(** A table in which [c1] is its own parent. *)
Definition looped : Store :=
  mkStore [bob_doc] [container_doc "c1" (VStr "c1") "u_bob"] [] [] [].

Definition sample_env : Env :=
  mkEnv 1700000000000 "2023-11-14T22:13:20.000Z" "a1b2c3" "65530000aa" 1000
        (λ _, None) (λ _, "") (λ _, None).

Definition request (user : string) (id : string) (b : list (string * value))
  : Request :=
  mkRequest (Some user) id None (list_to_map b).

(** A ranking of the ids of [warehouse] along which every parent link
    ascends. *)
Definition warehouse_rank (v : value) : nat :=
  match v with
  | VStr "c1" | VStr "c9" => 1
  | VStr "c2" => 2
  | _ => 0
  end.

Definition ascending (rank : value → nat) (cs : list doc) : bool :=
  forallb (λ c, (rank (get c "parent") <? rank (get c "id"))%nat) cs.

(** The parent link and id of each container, in stored order. *)
Definition links (cs : list doc) : list (value * value) :=
  (λ c, (get c "parent", get c "id")) <$> cs.

(** The id that POST /containers gives the new container is neither the
    parent asked for nor the parent link of a stored container. *)
Definition fresh_container_id (env : Env) (st : Store) (req : Request) : Prop :=
  let id := VStr ("c" +:+ pretty (now env)) in
  get (rbody req) "parent" ≠ id ∧ Forall (λ c, get c "parent" ≠ id) (containers st).

(** The table of [warehouse] after PUT /containers/c1 with
    [{parent: "c2"}], sent by bob. *)
Definition reparented : Store :=
  (handle sample_env warehouse PUT_containers
     (request "u_bob" "c1" [("parent", VStr "c2")])).1.

(** A decidable form of [child_of]. *)
Definition has_child (cs : list doc) (p x : value) : bool :=
  existsb (λ c, strict_eq (get c "parent") p && bool_decide (get c "id" = x)) cs.

(** ** Ownership *)

(** The id and owner of each container, in stored order. *)
Definition ownership (cs : list doc) : list (value * value) :=
  (λ c, (get c "id", get c "ownerId")) <$> cs.

(** A container created through the server without accounts: it has no
    [ownerId]. *)
Definition legacy_containers : list doc :=
  NoAuth.containers
    (NoAuth.post_containers sample_env (NoAuth.mkStore [] [] [])
       (mkRequest None "" None (list_to_map [("name", VStr "shelf")]))).1.

Definition legacy : Store := mkStore [admin_doc; bob_doc] legacy_containers [] [] [].

Definition later_env : Env :=
  mkEnv 1700000000001 "2023-11-14T22:13:20.001Z" "d4e5f6" "65530000ab" 1000
        (λ _, None) (λ _, "") (λ _, None).

(** Bob creates a container inside the legacy one. *)
Definition legacy_creation : Store * Response :=
  handle later_env legacy POST_containers
    (request "u_bob" "" [("name", VStr "box"); ("parent", VStr "c1700000000000")]).

(** The document of a response that carries one. *)
Definition doc_of (r : Response) : doc :=
  match payload r with BDoc d => d | _ => ∅ end.

(** ** Deleting a container *)



(** [cs'] is [cs] without its first document with the given id, if any. *)
Definition removed (id : string) (cs cs' : list doc) : Prop :=
  ((∀ c, c ∈ cs → get c "id" ≠ VStr id) ∧ cs' = cs)
  ∨ ∃ l1 c l2, cs = (l1 ++ c :: l2)%list ∧ get c "id" = VStr id ∧
               (∀ c', c' ∈ l1 → get c' "id" ≠ VStr id) ∧ cs' = (l1 ++ l2)%list.

(** [warehouse] with an empty container [c3] of bob's, shared with the
    administrator. *)
Definition depot : Store :=
  mkStore (users warehouse)
          (containers warehouse ++ [container_doc "c3" VNull "u_bob"])
          (items warehouse) (categories warehouse)
          (containerAccess warehouse ++ [access_doc "c3" "u_admin"]).

(** ** Updates *)

Inductive Kind := KContainer | KItem | KCategory.

Definition put_route (kind : Kind) : Route :=
  match kind with
  | KContainer => PUT_containers
  | KItem => PUT_items
  | KCategory => PUT_categories
  end.

Definition collection (kind : Kind) (st : Store) : list doc :=
  match kind with
  | KContainer => containers st
  | KItem => items st
  | KCategory => categories st
  end.

(** The keys a PUT handler copies from the body. *)
Definition updatable (kind : Kind) : list string :=
  match kind with
  | KContainer => container_keys
  | KItem => item_keys
  | KCategory => category_keys
  end.

(** [d'] is [d] with exactly the keys of [ks] that the body [b] carries
    set to the body's values. *)
Definition patched (ks : list string) (b d d' : doc) : Prop :=
  ∀ k, d' !! k = if bool_decide (k ∈ ks ∧ get b k ≠ VUndef)
                 then Some (get b k) else d !! k.

(** The outcome of a PUT on [coll] for the given id: without a record of
    that id nothing changes and the answer is [null]; otherwise the first
    such record is patched in place and returned. *)
Definition update_outcome (ks : list string) (id : string) (b : doc)
    (coll coll' : list doc) (r : Response) : Prop :=
  ((∀ d, d ∈ coll → get d "id" ≠ VStr id) →
   coll' = coll ∧ r = mkResponse 200 (BVal VNull))
  ∧ (∀ l1 d l2,
       coll = (l1 ++ d :: l2)%list → get d "id" = VStr id →
       (∀ d', d' ∈ l1 → get d' "id" ≠ VStr id) →
       ∃ d', patched ks b d d' ∧ coll' = (l1 ++ d' :: l2)%list
             ∧ r = mkResponse 200 (BDoc d')).

(** ** What a response shows *)

Definition field_docs (f : field) : list doc :=
  match f with
  | FVal _ => []
  | FDoc d => [d]
  | FDocs l => l
  end.

(** Every document a response body carries. *)
Definition docs_of (b : body) : list doc :=
  match b with
  | BVal _ => []
  | BDoc d => [d]
  | BDocs l => l
  | BObj fs => concat ((λ kv, field_docs kv.2) <$> fs)
  end.

(** The documents under one key of an object response. *)
Definition docs_under (key : string) (r : Response) : list doc :=
  match payload r with
  | BObj fs =>
      concat ((λ kv, if String.eqb kv.1 key then field_docs kv.2 else []) <$> fs)
  | _ => []
  end.

Definition no_code (d : doc) : Prop := d !! "code" = None.

(** ** Well-formed stores *)

Definition is_string (v : value) : bool :=
  match v with VStr _ => true | _ => false end.

(** Container ids are strings, as POST /containers makes them, and every
    ContainerAccess row names a stored container, as POST
    /container-access checks and DELETE /containers/:id maintains. *)
Definition well_formed (st : Store) : Prop :=
  Forall (λ c, is_string (get c "id") = true) (containers st)
  ∧ Forall (λ a, get a "containerId" ∈ (λ c, get c "id") <$> containers st)
           (containerAccess st).

(** [warehouse] after the container [c7] was deleted through the
    earlier server, which leaves bob's access row behind, and an item was
    then put into [c7]. *)
Definition orphaned : Store :=
  mkStore (users warehouse) (containers warehouse)
          (items warehouse ++ [item_doc "i7" "c7"]) (categories warehouse)
          (containerAccess warehouse ++ [access_doc "c7" "u_bob"]).

(** Sorted ascending by [order]: of two categories with a number as
    [order], the one that comes first has the smaller or the same. *)
Definition ascending_by_order (cats : list doc) : Prop :=
  ∀ (i j : nat) ci cj m n,
    (i < j)%nat → cats !! i = Some ci → cats !! j = Some cj →
    get ci "order" = VNum m → get cj "order" = VNum n → m ≤ n.

(** The object that sync answers with. *)
Definition sync_reply (cs its cats : list doc) : Response :=
  mkResponse 200 (BObj [("containers", FDocs cs); ("items", FDocs its);
                        ("categories", FDocs cats)]).

(** ** Invitations *)

(** The body [{inviteToken, code}] of an activation request. *)
Definition activate_request (inviteToken code : value) : Request :=
  mkRequest None "" None (<["inviteToken" := inviteToken]> (<["code" := code]> ∅)).

Definition invite_not_found : Response :=
  error 404 "Приглашение не найдено или уже использовано".

Definition code_taken : Response :=
  error 400 "Этот код уже занят, выберите другой".

(** Carol has been invited with token [tok] and has not activated yet. *)
Definition carol_doc : doc :=
  user_doc "u1699999999999" "carol" VNull false false (VStr "tok")
           (VDate 1700000500000).

Definition invited : Store := mkStore [admin_doc; carol_doc] [] [] [] [].

Definition first_activation : Store * Response :=
  handle sample_env invited POST_auth_activate
    (activate_request (VStr "tok") (VStr "4321")).

Definition second_activation : Store * Response :=
  handle later_env first_activation.1 POST_auth_activate
    (activate_request (VStr "tok") (VStr "4321")).

(** The store after a sequence of requests. *)
Definition run (reqs : list (Env * Route * Request)) (st : Store) : Store :=
  foldl (λ st r, (handle r.1.1 st r.1.2 r.2).1) st reqs.

Definition empty_store : Store := mkStore [] [] [] [] [].

(** ** Routes by what they ask of the caller *)

(** Routes without [authMiddleware]. *)
Definition public (route : Route) : bool :=
  match route with
  | GET_health | POST_auth_login | POST_auth_activate | GET_auth_invite => true
  | _ => false
  end.

(** Routes behind [adminOnly]. *)
Definition admin_route (route : Route) : bool :=
  match route with
  | GET_users | POST_users | DELETE_users | POST_users_reset => true
  | _ => false
  end.

(** Routes whose handler calls no insert, update or delete. *)
Definition read_only (route : Route) : bool :=
  match route with
  | GET_health | POST_auth_login | GET_auth_invite | GET_users | GET_sync
  | GET_containers | GET_items | GET_categories | GET_container_access
  | GET_search => true
  | _ => false
  end.

(** No active user has the id [h]. *)
Definition no_active_user (st : Store) (h : string) : Prop :=
  Forall (λ u, ¬ (get u "id" = VStr h ∧ get u "isActive" = VBool true)) (users st).

(** ** Categories and items *)

(** An item after the category [id] has been deleted. *)
Definition uncategorised (id : string) (i : doc) : doc :=
  if decide (get i "category" = VStr id) then <["category" := VNull]> i else i.

(** The [order] of a category is a number. *)
Definition numbered (c : doc) : Prop := ∃ n, get c "order" = VNum n.

(** The [order] of a category is a safe integer, one that every sum with
    1 represents exactly. *)
Definition safely_numbered (c : doc) : Prop :=
  ∃ n, get c "order" = VNum n ∧ - 2 ^ 53 < n < 2 ^ 53.

(** A store whose only category has the order 2^53. *)
Definition crowded : Store :=
  mkStore [bob_doc] [] [] [category_doc "cat1" (2 ^ 53)] [].

Definition order_below (n : Z) (c : doc) : Prop :=
  ∃ m, get c "order" = VNum m ∧ m < n.

(** What the driver stores for a value. *)
Definition stored_value (v : value) : value :=
  match v with VUndef => VNull | _ => v end.

(** ** Access rows *)

(** The container and the user each access row names. *)
Definition grants (st : Store) : list (value * value) :=
  (λ a, (get a "containerId", get a "userId")) <$> containerAccess st.

(** No pair of container and user is granted twice. *)
Definition unique_grants (st : Store) : Prop := NoDup (grants st).

(** The caller may manage the access to the container. *)
Definition may_manage (user c : doc) : Prop :=
  strict_eq (get c "ownerId") (get user "id") = true
  ∨ truthy (get user "isAdmin") = true.

(** ** Invitations and logins *)

(** The body [{code}] of a login. *)
Definition login_request (code : value) : Request :=
  mkRequest None "" None {["code" := code]}.

(** A request that carries only the caller's id. *)
Definition request_as (userId : string) : Request :=
  mkRequest (Some userId) "" None ∅.

(** The codes of the active users, in stored order. *)
Definition active_codes (us : list doc) : list (option value) :=
  (λ u, u !! "code")
    <$> List.filter (λ u, bool_decide (u !! "isActive" = Some (VBool true))) us.

(** The object [user] that POST /users builds. *)
Definition invited_user (env : Env) (name isAdmin : value) : doc :=
  <["id" := VStr ("u" +:+ pretty (now env))]> (<["name" := name]>
    (<["code" := VNull]> (<["isAdmin" := js_or isAdmin (VBool false)]>
      (<["isActive" := VBool false]> (<["inviteToken" := VStr (token env)]>
        (<["inviteExpires" := VDate (now env + week)]> ∅)))))).

(** What POST /users stores for it. *)
Definition stored_user (env : Env) (name isAdmin : value) : doc :=
  to_bson (with_id (oid env) (invited_user env name isAdmin)).

(** No two active users have the same code. *)
Definition unique_codes (st : Store) : Prop := NoDup (active_codes (users st)).

(** The request GET /auth/invite/:token. *)
Definition invite_request (T : string) : Request := mkRequest None T None ∅.

(** An engine for which the empty pattern matches every string. *)
Definition plain_env : Env :=
  mkEnv 1700000000000 "2023-11-14T22:13:20.000Z" "a1b2c3" "65530000aa" 1000
        (λ q, if String.eqb q "" then Some (λ _, true) else None) (λ _, "")
        (λ _, None).

(** The name of a document is a string that the pattern matches. *)
Definition name_matches (m : string → bool) (d : doc) : Prop :=
  ∃ s, get d "name" = VStr s ∧ m s = true.

(** ** The two servers *)

(** What the earlier server keeps of a store. *)
Definition forget (st : Store) : NoAuth.Store :=
  NoAuth.mkStore (containers st) (items st) (categories st).

(** The routes that read the inventory, and what the earlier server
    answers on each. *)
Definition inventory_read (env : Env) (st : NoAuth.Store) (route : Route)
    (req : Request) : option (NoAuth.Store * Response) :=
  match route with
  | GET_sync => Some (NoAuth.get_sync st)
  | GET_containers => Some (NoAuth.get_containers st)
  | GET_items => Some (NoAuth.get_items st)
  | GET_categories => Some (NoAuth.get_categories st)
  | GET_search => Some (NoAuth.get_search env st req)
  | _ => None
  end.

(** The routes that delete from the inventory, likewise. *)
Definition inventory_delete (st : NoAuth.Store) (route : Route) (req : Request)
  : option (NoAuth.Store * Response) :=
  match route with
  | DELETE_containers => Some (NoAuth.delete_containers st req)
  | DELETE_items => Some (NoAuth.delete_items st req)
  | DELETE_categories => Some (NoAuth.delete_categories st req)
  | _ => None
  end.

(** * Properties *)

(** ** Values, sets and queries *)

Lemma strict_eq_true a b : strict_eq a b = true → a = b.
Proof. destruct a; simpl; try discriminate; by intros ?%bool_decide_eq_true. Qed.

Lemma strict_eq_str a s : strict_eq a (VStr s) = true ↔ a = VStr s.
Proof.
  split; [apply strict_eq_true|]. intros ->. simpl. by apply bool_decide_eq_true.
Qed.

Lemma same_value_zero_true a b : same_value_zero a b = true → a = b.
Proof. destruct a; simpl; try discriminate; by intros ?%bool_decide_eq_true. Qed.

Lemma Set_has_elem s x : Set_has s x = true → x ∈ s.
Proof.
  unfold Set_has. rewrite existsb_exists. intros (y & Hy & Heq).
  apply same_value_zero_true in Heq as ->. by apply list_elem_of_In.
Qed.

Lemma Set_has_str s x : Set_has s (VStr x) = true ↔ VStr x ∈ s.
Proof.
  split; [apply Set_has_elem|]. intros Hin. unfold Set_has.
  apply existsb_exists. exists (VStr x). split; [by apply list_elem_of_In|].
  simpl. by apply bool_decide_eq_true.
Qed.

Lemma elem_of_Set_add x y s : y ∈ Set_add x s ↔ y ∈ s ∨ y = x.
Proof.
  unfold Set_add. destruct (Set_has s x) eqn:Hhas.
  - apply Set_has_elem in Hhas. split; [by left|]. by intros [?| ->].
  - rewrite elem_of_app, list_elem_of_singleton. tauto.
Qed.

Lemma elem_of_Set_of_from l : ∀ s x,
  x ∈ foldl (λ s x, Set_add x s) s l ↔ x ∈ s ∨ x ∈ l.
Proof.
  induction l as [|y l IH]; intros s x; simpl.
  - rewrite elem_of_nil. tauto.
  - rewrite IH, elem_of_Set_add, elem_of_cons. tauto.
Qed.

Lemma elem_of_Set_of l x : x ∈ Set_of l ↔ x ∈ l.
Proof. unfold Set_of. rewrite elem_of_Set_of_from, elem_of_nil. tauto. Qed.

Lemma elem_of_filter_bool {A} (f : A → bool) (l : list A) x :
  x ∈ List.filter f l ↔ x ∈ l ∧ f x = true.
Proof. rewrite !list_elem_of_In. apply filter_In. Qed.

Lemma get_Some (d : doc) k v : d !! k = Some v → get d k = v.
Proof. unfold get. by intros ->. Qed.

Lemma lookup_str (d : doc) k s : d !! k = Some (VStr s) ↔ get d k = VStr s.
Proof.
  unfold get. destruct (d !! k) as [v|]; simpl; split; intros H;
    try discriminate; congruence.
Qed.

Lemma matches_one_str k s d : matches [(k, VStr s)] d = true ↔ get d k = VStr s.
Proof.
  unfold matches, field_matches. simpl. rewrite andb_true_r, bool_decide_eq_true.
  apply lookup_str.
Qed.

(** ** The access resolver *)

Section AccessResolver.
Variable cs : list doc.

Lemma descendant_inv p x :
  descendant cs p x ↔ ∃ y, child_of cs p y ∧ rtc (child_of cs) y x.
Proof.
  unfold descendant. split.
  - intros H. inversion H as [? ? Hstep|? y ? Hstep Htc]; subst.
    + exists x. split; [done|apply rtc_refl].
    + exists y. split; [done|by apply tc_rtc].
  - intros (y & Hstep & Hrtc). apply rtc_tc in Hrtc as [->|Htc].
    + by apply tc_once.
    + by eapply tc_l.
Qed.

Lemma children_spec p x :
  (∃ c, c ∈ List.filter (λ c, strict_eq (get c "parent") p) cs ∧ get c "id" = x)
  ↔ child_of cs p x.
Proof.
  unfold child_of. split.
  - intros (c & Hc & Hid). apply elem_of_filter_bool in Hc as [? ?]. eauto.
  - intros (c & Hc & Hp & Hid). exists c. by rewrite elem_of_filter_bool.
Qed.

(** What one call of [addChildren] adds to the set it is given. *)
Lemma addChildren_elem depth : ∀ p acc acc',
  addChildren depth cs p acc = Some acc' →
  ∀ x, x ∈ acc' ↔ x ∈ acc ∨ descendant cs p x.
Proof.
  induction depth as [|depth IH]; intros p acc acc'; simpl; [discriminate|].
  set (step := λ (acc : list value) (child : doc),
         addChildren depth cs (get child "id") (Set_add (get child "id") acc)).
  assert (Hloop : ∀ l a a', forEach step l a = Some a' →
            ∀ x, x ∈ a' ↔ x ∈ a ∨ ∃ c, c ∈ l ∧ rtc (child_of cs) (get c "id") x).
  { induction l as [|c l IHl]; intros a a'; simpl.
    - intros [= <-] x. split; [by left|]. intros [?|(c & Hc & _)]; [done|].
      by apply elem_of_nil in Hc.
    - unfold step at 1. destruct (addChildren depth cs _ _) as [a1|] eqn:Hcall;
        [|discriminate].
      intros Hrest x. rewrite (IHl _ _ Hrest x), (IH _ _ _ Hcall x),
        elem_of_Set_add. split.
      + intros [[[?| ->]|Hd]|(c' & Hc' & Hr)].
        * by left.
        * right. exists c. split; [apply elem_of_cons; by left|apply rtc_refl].
        * right. exists c. split; [apply elem_of_cons; by left|by apply tc_rtc].
        * right. exists c'. split; [apply elem_of_cons; by right|done].
      + intros [?|(c' & Hc' & Hr)]; [by left; left; left|].
        apply elem_of_cons in Hc' as [->|Hc'].
        * apply rtc_tc in Hr as [<-|Htc]; [left; left; by right|left; by right].
        * right. eauto. }
  intros Hrun x. rewrite (Hloop _ _ _ Hrun x), descendant_inv.
  split; (intros [?|Hd]; [by left|right]).
  - destruct Hd as (c & Hc & Hr). exists (get c "id"). split; [|done].
    apply children_spec. eauto.
  - destruct Hd as (y & Hstep & Hr). apply children_spec in Hstep as (c & Hc & <-).
    eauto.
Qed.

(** The loop over the roots. *)
Lemma roots_elem depth : ∀ roots acc acc',
  forEach (λ acc id, addChildren depth cs id acc) roots acc = Some acc' →
  ∀ x, x ∈ acc' ↔ x ∈ acc ∨ ∃ r, r ∈ roots ∧ descendant cs r x.
Proof.
  induction roots as [|r roots IH]; intros acc acc'; simpl.
  - intros [= <-] x. split; [by left|]. intros [?|(r & Hr & _)]; [done|].
    by apply elem_of_nil in Hr.
  - destruct (addChildren depth cs r acc) as [a1|] eqn:Hcall; [|discriminate].
    intros Hrest x. rewrite (IH _ _ Hrest x), (addChildren_elem _ _ _ _ Hcall x).
    split.
    + intros [[?|Hd]|(r' & Hr' & Hd)]; [by left|right..].
      * exists r. split; [apply elem_of_cons; by left|done].
      * exists r'. split; [apply elem_of_cons; by right|done].
    + intros [?|(r' & Hr' & Hd)]; [by left; left|].
      apply elem_of_cons in Hr' as [->|Hr']; [left; by right|right; eauto].
Qed.

(** A chain of nested calls visits pairwise distinct container ids as
    long as it meets no cycle, so it is no longer than the table. *)
Lemma addChildren_returns root (Hfree : cycle_free_below cs root) depth :
  ∀ p acc visited,
    rtc (child_of cs) root p →
    NoDup visited →
    (∀ v, v ∈ visited → v ∈ (λ c, get c "id") <$> cs) →
    (∀ v, v ∈ visited → rtc (child_of cs) v p ∧ rtc (child_of cs) root v) →
    (length cs < depth + length visited)%nat →
    is_Some (addChildren depth cs p acc).
Proof.
  induction depth as [|depth IH]; intros p acc visited Hroot Hnd Hids Hreach Hlen.
  - exfalso. apply NoDup_submseteq with (k := (λ c, get c "id") <$> cs) in Hnd;
      [|done]. apply submseteq_length in Hnd. rewrite length_fmap in Hnd.
    simpl in Hlen. lia.
  - simpl.
    set (step := λ (acc : list value) (child : doc),
           addChildren depth cs (get child "id") (Set_add (get child "id") acc)).
    assert (Hloop : ∀ l, (∀ c, c ∈ l → child_of cs p (get c "id")) →
              ∀ a, is_Some (forEach step l a)).
    { induction l as [|c l IHl]; intros Hl a; simpl; [by eexists|].
      assert (Hc : child_of cs p (get c "id")) by (apply Hl, elem_of_cons; by left).
      assert (Hfresh : get c "id" ∉ visited).
      { intros Hin. destruct (Hreach _ Hin) as [Hback Hfwd].
        apply (Hfree (get c "id") Hfwd). unfold descendant.
        eapply tc_rtc_l; [exact Hback|]. by apply tc_once. }
      destruct (IH (get c "id") (Set_add (get c "id") a) (get c "id" :: visited))
        as [a1 Ha1].
      + by eapply rtc_r.
      + by apply NoDup_cons.
      + intros v [->|Hv]%elem_of_cons; [|by apply Hids].
        destruct Hc as (c' & Hc' & _ & Heq). rewrite <- Heq.
        by apply (list_elem_of_fmap_2 (λ c : doc, get c "id")).
      + intros v [->|Hv]%elem_of_cons.
        * split; [apply rtc_refl|by eapply rtc_r].
        * destruct (Hreach _ Hv). split; [by eapply rtc_r|done].
      + simpl. lia.
      + unfold step at 1. rewrite Ha1. apply IHl.
        intros c' Hc'. apply Hl, elem_of_cons. by right. }
    apply Hloop. intros c Hc. apply children_spec. eauto.
Qed.

(** A call that can reach a cycle exhausts every stack. *)
Lemma addChildren_overflows depth : ∀ p acc,
  (∃ x, rtc (child_of cs) p x ∧ descendant cs x x) →
  addChildren depth cs p acc = None.
Proof.
  induction depth as [|depth IH]; intros p acc (x & Hpx & Hxx); simpl; [done|].
  assert (Hnext : ∃ y, child_of cs p y ∧ ∃ x, rtc (child_of cs) y x ∧ descendant cs x x).
  { apply rtc_inv in Hpx as [->|(y & Hstep & Hyx)].
    - apply descendant_inv in Hxx as (y & Hstep & Hyx). exists y. split; [done|].
      exists y. split; [apply rtc_refl|]. unfold descendant.
      eapply tc_rtc_l; [exact Hyx|]. by apply tc_once.
    - exists y. split; [done|]. eauto. }
  destruct Hnext as (y & Hstep & Hloop).
  apply children_spec in Hstep as (c & Hc & <-).
  revert acc. induction (List.filter _ cs) as [|c' l IHl]; intros acc; simpl.
  - by apply elem_of_nil in Hc.
  - apply elem_of_cons in Hc as [<-|Hc].
    + by rewrite IH.
    + destruct (addChildren depth cs _ _); [by apply IHl|done].
Qed.

End AccessResolver.

Lemma has_child_sound cs p x : has_child cs p x = true → child_of cs p x.
Proof.
  unfold has_child. rewrite existsb_exists.
  intros (c & Hc & [Hp Hid%bool_decide_eq_true]%andb_true_iff).
  exists c. by rewrite list_elem_of_In.
Qed.

Lemma forEach_Some {A B} (f : B → A → option B) l :
  (∀ x, x ∈ l → ∀ a, is_Some (f a x)) → ∀ a, is_Some (forEach f l a).
Proof.
  induction l as [|x l IH]; intros Hf a; simpl; [by eexists|].
  destruct (Hf x (list_elem_of_here _ _) a) as [a1 ->].
  apply IH. intros y Hy. apply Hf. by apply elem_of_cons; right.
Qed.

Lemma forEach_None {A B} (f : B → A → option B) l x :
  x ∈ l → (∀ a, f a x = None) → ∀ a, forEach f l a = None.
Proof.
  intros Hx Hf. induction l as [|y l IH]; intros a; simpl.
  - by apply elem_of_nil in Hx.
  - apply elem_of_cons in Hx as [<-|Hx]; [by rewrite Hf|].
    destruct (f a y); [by apply IH|done].
Qed.

Lemma rootAccessIds_spec st u x :
  x ∈ rootAccessIds st (VStr u) ↔ root_access st u x.
Proof.
  unfold rootAccessIds, root_access, owns, granted, find.
  rewrite elem_of_Set_of, elem_of_app, !elem_of_Set_of, !list_elem_of_fmap.
  split.
  - intros [(c & Hx & Hc)|(a & Hx & Ha)]; [left|right].
    + apply elem_of_filter_bool in Hc as [? ?%strict_eq_str]. eauto.
    + apply elem_of_filter_bool in Ha as [? ?%matches_one_str]. eauto.
  - intros [(c & Hc & Ho & Hid)|(a & Ha & Hu & Hid)]; [left|right].
    + exists c. split; [done|].
      apply elem_of_filter_bool. split; [done|]. by apply strict_eq_str.
    + exists a. split; [done|].
      apply elem_of_filter_bool. split; [done|]. by apply matches_one_str.
Qed.

Lemma getAccessibleContainerIds_unfold depth st userId :
  getAccessibleContainerIds depth st userId =
  forEach (λ acc id, addChildren depth (containers st) id acc)
    (rootAccessIds st userId) (Set_of (rootAccessIds st userId)).
Proof. reflexivity. Qed.

(** Whatever the table, a set that is returned holds the accessible ids
    and nothing else. *)
Lemma accessible_elem depth st u S :
  getAccessibleContainerIds depth st (VStr u) = Some S →
  ∀ x, x ∈ S ↔ accessible st u x.
Proof.
  rewrite getAccessibleContainerIds_unfold. intros Hrun x.
  rewrite (roots_elem _ _ _ _ _ Hrun x), elem_of_Set_of, rootAccessIds_spec.
  unfold accessible. split; (intros [?|(r & Hr & Hd)]; [by left|right]);
    exists r; (split; [by apply rootAccessIds_spec|done]).
Qed.

Lemma returns_when_cycle_free st u depth :
  (∀ r, root_access st u r → cycle_free_below (containers st) r) →
  (length (containers st) < depth)%nat →
  is_Some (getAccessibleContainerIds depth st (VStr u)).
Proof.
  intros Hfree Hdepth. rewrite getAccessibleContainerIds_unfold.
  apply forEach_Some. intros r Hr%rootAccessIds_spec acc.
  apply (addChildren_returns _ r (Hfree r Hr) depth r acc []).
  - apply rtc_refl.
  - apply NoDup_nil_2.
  - intros v Hv. by apply elem_of_nil in Hv.
  - intros v Hv. by apply elem_of_nil in Hv.
  - simpl. lia.
Qed.

Lemma acyclic_cycle_free cs r : acyclic cs → cycle_free_below cs r.
Proof. intros Hac x _. apply Hac. Qed.

(** A table whose parent links ascend along some ranking has no cycle. *)
Lemma ascending_acyclic rank cs : ascending rank cs = true → acyclic cs.
Proof.
  unfold ascending. rewrite forallb_forall. intros Hasc.
  assert (Hlt : ∀ x y, descendant cs x y → (rank x < rank y)%nat).
  { intros x y Htc. induction Htc as [x y Hstep|x y z Hstep _ IH].
    - destruct Hstep as (c & Hc & Hp%strict_eq_true & Hid). subst.
      apply Nat.ltb_lt, Hasc. by apply list_elem_of_In.
    - destruct Hstep as (c & Hc & Hp%strict_eq_true & Hid). subst.
      etrans; [|exact IH]. apply Nat.ltb_lt, Hasc. by apply list_elem_of_In. }
  intros x Hx. apply Hlt in Hx. lia.
Qed.

Lemma overflows_on_reachable_cycle st u r x :
  root_access st u r → rtc (child_of (containers st)) r x →
  descendant (containers st) x x →
  ∀ depth, getAccessibleContainerIds depth st (VStr u) = None.
Proof.
  intros Hr Hrx Hxx depth. rewrite getAccessibleContainerIds_unfold.
  apply forEach_None with (x := r); [by apply rootAccessIds_spec|].
  intros acc. apply addChildren_overflows. eauto.
Qed.

Lemma looped_cycle : descendant (containers looped) (VStr "c1") (VStr "c1").
Proof.
  apply tc_once. exists (container_doc "c1" (VStr "c1") "u_bob").
  split; [apply list_elem_of_here|]. by vm_compute.
Qed.

Lemma looped_root : root_access looped "u_bob" (VStr "c1").
Proof.
  left. exists (container_doc "c1" (VStr "c1") "u_bob").
  split; [apply list_elem_of_here|]. by vm_compute.
Qed.

Example bob_sees_c1_c2 :
  getAccessibleContainerIds 3 warehouse (VStr "u_bob") = Some [VStr "c1"; VStr "c2"].
Proof. by vm_compute. Qed.

Lemma reparented_root : root_access reparented "u_bob" (VStr "c1").
Proof.
  right. exists (access_doc "c1" "u_bob").
  split; [apply list_elem_of_here|]. by vm_compute.
Qed.

Lemma reparented_cycle : descendant (containers reparented) (VStr "c1") (VStr "c1").
Proof.
  unfold descendant. eapply tc_l; [|apply tc_once]; apply has_child_sound.
  - instantiate (1 := VStr "c2"). by vm_compute.
  - by vm_compute.
Qed.

(** C1, as the code has it: when no cycle of parent links can be reached
    from the containers the user owns or is granted, the call returns, as
    soon as the stack admits more nested calls than there are containers,
    and the set it returns consists of exactly the ids of the containers
    the user owns, the ids named by the user's ContainerAccess rows and
    the ids of all descendants of those along the parent links. When such
    a cycle can be reached it returns no set, whatever the stack. No call
    returns any other set. *)
Theorem accessible_containers_exact (st : Store) (u : string) (depth : nat) :
  ((∀ r, root_access st u r → cycle_free_below (containers st) r) →
   (length (containers st) < depth)%nat →
   ∃ S, getAccessibleContainerIds depth st (VStr u) = Some S ∧
        ∀ x, x ∈ S ↔ accessible st u x)
  ∧ ((∃ r x, root_access st u r ∧ rtc (child_of (containers st)) r x
             ∧ descendant (containers st) x x) →
     getAccessibleContainerIds depth st (VStr u) = None)
  ∧ (∀ S, getAccessibleContainerIds depth st (VStr u) = Some S →
          ∀ x, x ∈ S ↔ accessible st u x).
Proof.
  split; [|split].
  - intros Hfree Hdepth.
    destruct (returns_when_cycle_free st u depth Hfree Hdepth) as [S HS].
    exists S. split; [done|]. by apply (accessible_elem depth).
  - intros (r & x & Hr & Hrx & Hxx). by eapply overflows_on_reachable_cycle.
  - intros S. apply (accessible_elem depth).
Qed.

Lemma accessible_containers_exact_witness :
  ∃ S, getAccessibleContainerIds 4 warehouse (VStr "u_bob") = Some S ∧
       ∀ x, x ∈ S ↔ accessible warehouse "u_bob" x.
Proof.
  apply (proj1 (accessible_containers_exact warehouse "u_bob" 4)).
  - intros r _. apply acyclic_cycle_free, (ascending_acyclic warehouse_rank).
    reflexivity.
  - simpl. lia.
Defined.

(** C1 as stated fails: after bob's PUT /containers/c1 with
    [{parent: "c2"}] on [warehouse], bob is still granted [c1], and the
    call returns no set for him, however deep the stack. *)
Lemma granted_but_no_set_returned :
  accessible reparented "u_bob" (VStr "c1")
  ∧ ∀ depth, getAccessibleContainerIds depth reparented (VStr "u_bob") = None.
Proof.
  split; [left; apply reparented_root|].
  apply (overflows_on_reachable_cycle reparented "u_bob" (VStr "c1") (VStr "c1")).
  - apply reparented_root.
  - apply rtc_refl.
  - apply reparented_cycle.
Qed.

(** C2, as the code has it: the traversal keeps no record of visited
    ids. It returns on every table on which no cycle of parent links can
    be reached from the user's root access set, within a stack of as many
    nested calls as there are containers plus one; when such a cycle can
    be reached it exhausts every stack and returns nothing. *)
Theorem terminates_iff_no_reachable_cycle (st : Store) (u : string) :
  ((∀ r, root_access st u r → cycle_free_below (containers st) r) →
   ∀ depth, (length (containers st) < depth)%nat →
            is_Some (getAccessibleContainerIds depth st (VStr u)))
  ∧ ((∃ r x, root_access st u r ∧ rtc (child_of (containers st)) r x
             ∧ descendant (containers st) x x) →
     ∀ depth, getAccessibleContainerIds depth st (VStr u) = None).
Proof.
  split.
  - intros Hfree depth. by apply returns_when_cycle_free.
  - intros (r & x & Hr & Hrx & Hxx). by eapply overflows_on_reachable_cycle.
Qed.

Lemma terminates_iff_no_reachable_cycle_witness :
  is_Some (getAccessibleContainerIds 4 warehouse (VStr "u_bob"))
  ∧ ∀ depth, getAccessibleContainerIds depth looped (VStr "u_bob") = None.
Proof.
  split.
  - apply (proj1 (terminates_iff_no_reachable_cycle warehouse "u_bob")).
    + intros r _. apply acyclic_cycle_free, (ascending_acyclic warehouse_rank).
      reflexivity.
    + simpl. lia.
  - apply (proj2 (terminates_iff_no_reachable_cycle looped "u_bob")).
    exists (VStr "c1"), (VStr "c1").
    split; [apply looped_root|]. split; [apply rtc_refl|apply looped_cycle].
Defined.

(** C2 as stated fails: on the table in which [c1] is its own parent the
    call returns on no stack, however deep. *)
Lemma looped_never_returns :
  ¬ ∃ depth, is_Some (getAccessibleContainerIds depth looped (VStr "u_bob")).
Proof.
  intros (depth & S & HS).
  rewrite (overflows_on_reachable_cycle looped "u_bob" (VStr "c1") (VStr "c1")) in HS.
  - discriminate.
  - apply looped_root.
  - apply rtc_refl.
  - apply looped_cycle.
Qed.

(** ** Store operations *)

Lemma lookup_set (upd d : doc) k :
  (upd ∪ d) !! k = match upd !! k with Some v => Some v | None => d !! k end.
Proof.
  rewrite lookup_union. destruct (upd !! k), (d !! k); reflexivity.
Qed.

Lemma get_set_other (upd d : doc) k : upd !! k = None → get (upd ∪ d) k = get d k.
Proof. intros H. unfold get. by rewrite lookup_set, H. Qed.

Lemma lookup_collect ks b k :
  collect ks b !! k =
  if bool_decide (k ∈ ks ∧ get b k ≠ VUndef) then Some (get b k) else None.
Proof.
  unfold collect. induction ks as [|k' ks IH]; cbn [foldr].
  - rewrite lookup_empty. case_bool_decide as H; [|done].
    destruct H as [H _]. by apply elem_of_nil in H.
  - destruct (decide (get b k' = VUndef)) as [Hundef|Hundef];
      [rewrite (bool_decide_eq_true_2 (get b k' = VUndef)) by done
      |rewrite (bool_decide_eq_false_2 (get b k' = VUndef)) by done].
    + rewrite IH. erewrite bool_decide_ext; [done|]. rewrite elem_of_cons.
      split; [tauto|]. intros [[->|?] ?]; [done|tauto].
    + destruct (decide (k = k')) as [->|Hne].
      * rewrite lookup_insert_eq. rewrite bool_decide_eq_true_2; [done|].
        split; [apply list_elem_of_here|done].
      * rewrite lookup_insert_ne by done. rewrite IH.
        erewrite bool_decide_ext; [done|]. rewrite elem_of_cons.
        split; [tauto|]. intros [[->|?] ?]; [done|tauto].
Qed.

Lemma collect_other ks b k : k ∉ ks → collect ks b !! k = None.
Proof.
  intros Hk. rewrite lookup_collect. rewrite bool_decide_eq_false_2; [done|].
  by intros [? _].
Qed.

Lemma collect_absent ks b k : get b k = VUndef → collect ks b !! k = None.
Proof.
  intros Hk. rewrite lookup_collect. rewrite bool_decide_eq_false_2; [done|].
  by intros [_ ?].
Qed.

Lemma updateOne_fmap {B} (f : doc → B) q upd l :
  (∀ d, f (upd ∪ d) = f d) → f <$> updateOne q upd l = f <$> l.
Proof.
  intros Hf. induction l as [|d l IH]; [done|]. cbn [updateOne].
  destruct (matches q d); rewrite !fmap_cons; [by rewrite Hf|by rewrite IH].
Qed.

Lemma deleteOne_sublist q l : deleteOne q l `sublist_of` l.
Proof.
  induction l as [|d l IH]; simpl; [done|].
  destruct (matches q d); [by apply sublist_cons|by apply sublist_skip].
Qed.

Lemma deleteMany_sublist q l : deleteMany q l `sublist_of` l.
Proof.
  unfold deleteMany. induction l as [|d l IH]; simpl; [done|].
  destruct (negb (matches q d)); [by apply sublist_skip|by apply sublist_cons].
Qed.

Lemma find_nil_iff q l : find q l = [] ↔ ∀ d, d ∈ l → matches q d = false.
Proof.
  unfold find. induction l as [|d l IH]; simpl.
  - split; [|done]. intros _ d Hd. by apply elem_of_nil in Hd.
  - destruct (matches q d) eqn:Hm.
    + split; [done|]. intros H. specialize (H d (list_elem_of_here _ _)). congruence.
    + rewrite IH. split.
      * intros H d' [->|Hd']%elem_of_cons; auto.
      * intros H d' Hd'. apply H, elem_of_cons. by right.
Qed.

Lemma findOne_None q l : findOne q l = None ↔ ∀ d, d ∈ l → matches q d = false.
Proof.
  unfold findOne. rewrite <- find_nil_iff. destruct (find q l); simpl; split; done.
Qed.

Lemma findOne_Some q l d : findOne q l = Some d → d ∈ l ∧ matches q d = true.
Proof.
  unfold findOne, find. intros H. apply head_Some_elem_of in H.
  by apply elem_of_filter_bool in H.
Qed.


(** The first match and what surrounds it. *)
Lemma first_match q (l : list doc) :
  (∀ d, d ∈ l → matches q d = false) ∨
  ∃ l1 d l2, l = (l1 ++ d :: l2)%list ∧ matches q d = true ∧
             ∀ d', d' ∈ l1 → matches q d' = false.
Proof.
  induction l as [|d l IH].
  - left. intros d Hd. by apply elem_of_nil in Hd.
  - destruct (matches q d) eqn:Hm.
    + right. exists [], d, l. split; [done|]. split; [done|].
      intros d' Hd'. by apply elem_of_nil in Hd'.
    + destruct IH as [Hnone|(l1 & d' & l2 & -> & Hd' & Hl1)].
      * left. intros d' [->|Hd']%elem_of_cons; auto.
      * right. exists (d :: l1), d', l2. split; [done|]. split; [done|].
        intros d'' [->|Hd'']%elem_of_cons; auto.
Qed.

Lemma updateOne_none q upd l :
  (∀ d, d ∈ l → matches q d = false) → updateOne q upd l = l.
Proof.
  induction l as [|d l IH]; intros H; simpl; [done|].
  rewrite (H d (list_elem_of_here _ _)). f_equal. apply IH.
  intros d' Hd'. apply H, elem_of_cons. by right.
Qed.

Lemma updateOne_first q upd l1 d l2 :
  (∀ d', d' ∈ l1 → matches q d' = false) → matches q d = true →
  updateOne q upd (l1 ++ d :: l2)%list = (l1 ++ (upd ∪ d) :: l2)%list.
Proof.
  induction l1 as [|d1 l1 IH]; intros Hl1 Hd; simpl.
  - by rewrite Hd.
  - rewrite (Hl1 d1 (list_elem_of_here _ _)). f_equal. apply IH; [|done].
    intros d' Hd'. apply Hl1, elem_of_cons. by right.
Qed.

Lemma deleteOne_first q l1 d l2 :
  (∀ d', d' ∈ l1 → matches q d' = false) → matches q d = true →
  deleteOne q (l1 ++ d :: l2)%list = (l1 ++ l2)%list.
Proof.
  induction l1 as [|d1 l1 IH]; intros Hl1 Hd; simpl.
  - by rewrite Hd.
  - rewrite (Hl1 d1 (list_elem_of_here _ _)). f_equal. apply IH; [|done].
    intros d' Hd'. apply Hl1, elem_of_cons. by right.
Qed.

Lemma deleteOne_none q l :
  (∀ d, d ∈ l → matches q d = false) → deleteOne q l = l.
Proof.
  induction l as [|d l IH]; intros H; simpl; [done|].
  rewrite (H d (list_elem_of_here _ _)). f_equal. apply IH.
  intros d' Hd'. apply H, elem_of_cons. by right.
Qed.

Lemma findOne_first q l1 d l2 :
  (∀ d', d' ∈ l1 → matches q d' = false) → matches q d = true →
  findOne q (l1 ++ d :: l2)%list = Some d.
Proof.
  intros Hl1 Hd. unfold findOne, find. rewrite List.filter_app.
  change (List.filter (matches q) l1) with (find q l1).
  rewrite (proj2 (find_nil_iff q l1) Hl1). simpl. by rewrite Hd.
Qed.

Lemma deleteOne_cons q d (l : list doc) :
  deleteOne q (d :: l) = if matches q d then l else d :: deleteOne q l.
Proof. reflexivity. Qed.

(** ** What each route does to the containers *)

#[local] Arguments collect : simpl never.
#[local] Arguments updateOne : simpl never.
#[local] Arguments deleteOne : simpl never.
#[local] Arguments deleteMany : simpl never.
#[local] Arguments insertOne : simpl never.
#[local] Arguments findOne : simpl never.
#[local] Arguments getAccessibleContainerIds : simpl never.
#[local] Arguments sorted_by_order : simpl never.
#[local] Arguments max_order : simpl never.

Lemma handle_containers env st route req :
  containers (handle env st route req).1 = containers st
  ∨ (route = POST_containers ∧ ∃ user, authMiddleware st req = inr user ∧
       containers (handle env st route req).1 =
       insertOne (oid env) (new_container env st user (rbody req)) (containers st))
  ∨ (route = PUT_containers ∧
       containers (handle env st route req).1 =
       updateOne [("id", VStr (param req))] (collect container_keys (rbody req))
         (containers st))
  ∨ (route = DELETE_containers ∧
       containers (handle env st route req).1 =
       deleteOne [("id", VStr (param req))] (containers st)).
Proof.
  destruct route; simpl;
    unfold as_admin, authenticated, post_auth_login, post_auth_activate,
      get_auth_invite, get_users, post_users, delete_users, post_users_reset,
      get_sync, get_containers, post_containers, put_containers, delete_containers,
      get_items, post_items, put_items, delete_items, get_categories,
      post_categories, put_categories, delete_categories, post_container_access,
      delete_container_access, get_container_access, get_search;
    repeat case_match; simpl; eauto 10.
Qed.

Lemma child_of_links cs p x :
  child_of cs p x ↔ ∃ q, (q, x) ∈ links cs ∧ strict_eq q p = true.
Proof.
  unfold child_of, links. split.
  - intros (c & Hc & Hp & <-). exists (get c "parent"). split; [|done].
    by apply (list_elem_of_fmap_2 (λ c : doc, (get c "parent", get c "id"))).
  - intros (q & Hin & Hq). apply list_elem_of_fmap in Hin as (c & [= -> ->] & Hc).
    eauto.
Qed.

Lemma descendant_mono cs cs' x y :
  (∀ e, e ∈ links cs' → e ∈ links cs) → descendant cs' x y → descendant cs x y.
Proof.
  intros Hsub Htc. unfold descendant in *.
  induction Htc as [x y Hstep|x y z Hstep _ IH].
  - apply tc_once. apply child_of_links in Hstep as (q & Hq & ?).
    apply child_of_links. eauto.
  - eapply tc_l; [|exact IH]. apply child_of_links in Hstep as (q & Hq & ?).
    apply child_of_links. eauto.
Qed.

Lemma acyclic_mono cs cs' :
  (∀ e, e ∈ links cs' → e ∈ links cs) → acyclic cs → acyclic cs'.
Proof. intros Hsub Hac x Hx. apply (Hac x). by eapply descendant_mono. Qed.

Lemma strict_eq_false a b : a ≠ b → strict_eq a b = false.
Proof.
  intros Hne. destruct (strict_eq a b) eqn:H; [|done].
  by apply strict_eq_true in H.
Qed.

(** Appending a container whose id is nobody's parent closes no cycle. *)
Lemma acyclic_snoc (cs : list doc) (c : doc) :
  (∀ d, d ∈ (cs ++ [c])%list → strict_eq (get d "parent") (get c "id") = false) →
  acyclic cs → acyclic (cs ++ [c])%list.
Proof.
  intros Hleaf Hac.
  assert (Hout : ∀ y, ¬ child_of (cs ++ [c])%list (get c "id") y).
  { intros y (d & Hd & Hp & _). rewrite (Hleaf d Hd) in Hp. discriminate. }
  assert (Hold : ∀ x y, child_of (cs ++ [c])%list x y → child_of cs x y ∨ y = get c "id").
  { intros x y (d & Hd & Hp & Hid). apply elem_of_app in Hd as [Hd|Hd].
    - left. exists d. eauto.
    - apply list_elem_of_singleton in Hd as ->. by right. }
  assert (Hpath : ∀ x y, descendant (cs ++ [c])%list x y →
                         descendant cs x y ∨ y = get c "id").
  { intros x y Htc. unfold descendant in *.
    induction Htc as [x y Hstep|x y z Hstep Htc IH].
    - apply Hold in Hstep as [?| ->]; [left; by apply tc_once|by right].
    - destruct IH as [IH| ->]; [|by right].
      apply Hold in Hstep as [?| ->]; [left; by eapply tc_l|].
      exfalso. apply descendant_inv in IH as (w & Hw & _).
      apply (Hout w). destruct Hw as (d & Hd & ? & ?). exists d.
      split; [apply elem_of_app; by left|done]. }
  intros x Hx. destruct (Hpath x x Hx) as [Hcs| ->]; [by apply (Hac x)|].
  apply descendant_inv in Hx as (w & Hw & _). by apply (Hout w).
Qed.

Lemma get_to_bson d k : get d k ≠ VUndef → get (to_bson d) k = get d k.
Proof.
  unfold get, to_bson. rewrite lookup_fmap.
  destruct (d !! k) as [v|]; simpl; [|done]. by destruct v.
Qed.

Lemma get_with_id o d k : k ≠ "_id" → get (with_id o d) k = get d k.
Proof.
  intros Hk. unfold with_id, get. destruct (d !! "_id"); [done|].
  by rewrite lookup_insert_ne.
Qed.

Lemma js_or_null_defined v : js_or v VNull ≠ VUndef.
Proof. unfold js_or. destruct (truthy v) eqn:H; [|done]. by destruct v. Qed.

Lemma stored_container_id env st user b :
  get (to_bson (with_id (oid env) (new_container env st user b))) "id"
  = VStr ("c" +:+ pretty (now env)).
Proof. rewrite get_to_bson; by rewrite get_with_id. Qed.

Lemma stored_container_parent env st user b :
  get (to_bson (with_id (oid env) (new_container env st user b))) "parent"
  = js_or (get b "parent") VNull.
Proof.
  rewrite get_to_bson; rewrite get_with_id by done;
    change (get (new_container env st user b) "parent") with (js_or (get b "parent") VNull);
    [done|apply js_or_null_defined].
Qed.

(** C3, as the code has it: the parent graph stays free of cycles under
    every request except a container update that carries a [parent] key,
    given that the id a container creation assigns is not already in use
    as a parent link. Neither handler checks the parent it stores. *)
Theorem acyclic_preserved (env : Env) (st : Store) (route : Route) (req : Request) :
  acyclic (containers st) →
  (route = PUT_containers → get (rbody req) "parent" = VUndef) →
  (route = POST_containers → fresh_container_id env st req) →
  acyclic (containers (handle env st route req).1).
Proof.
  intros Hac Hput Hpost.
  destruct (handle_containers env st route req)
    as [->|[(Hr & user & _ & ->)|[(Hr & ->)|(Hr & ->)]]]; [done|..].
  - destruct (Hpost Hr) as [Hreq Hstored]. unfold insertOne.
    rewrite Forall_forall in Hstored.
    apply acyclic_snoc; [|done]. rewrite stored_container_id.
    intros d [Hd| ->%list_elem_of_singleton]%elem_of_app; apply strict_eq_false.
    + by apply Hstored.
    + rewrite stored_container_parent. unfold js_or.
      destruct (truthy (get (rbody req) "parent")); [done|discriminate].
  - eapply acyclic_mono; [|exact Hac]. unfold links.
    rewrite (updateOne_fmap (λ c : doc, (get c "parent", get c "id"))); [done|].
    intros d. f_equal; apply get_set_other.
    + by apply collect_absent, Hput.
    + apply collect_other. compute_done.
  - eapply acyclic_mono; [|exact Hac]. intros e He. unfold links in *.
    eapply elem_of_sublist; [exact He|]. apply fmap_sublist, deleteOne_sublist.
Qed.

Lemma acyclic_preserved_witness :
  acyclic (containers (handle sample_env warehouse POST_containers
             (request "u_bob" "" [("name", VStr "box"); ("parent", VStr "c1")])).1).
Proof.
  apply acyclic_preserved.
  - apply (ascending_acyclic warehouse_rank). reflexivity.
  - discriminate.
  - intros _. split; compute_done.
Defined.

(** C3 as stated fails: bob's PUT /containers/c1 with [{parent: "c2"}] is
    answered with 200 and turns the forest of [warehouse] into a table in
    which [c1] is its own ancestor. *)
Lemma update_closes_cycle :
  acyclic (containers warehouse)
  ∧ status (handle sample_env warehouse PUT_containers
              (request "u_bob" "c1" [("parent", VStr "c2")])).2 = 200
  ∧ ¬ acyclic (containers reparented).
Proof.
  split; [apply (ascending_acyclic warehouse_rank); reflexivity|].
  split; [by vm_compute|].
  intros Hac. apply (Hac (VStr "c1")). unfold descendant.
  eapply tc_l; [|apply tc_once]; apply has_child_sound.
  - instantiate (1 := VStr "c2"). by vm_compute.
  - by vm_compute.
Qed.

(** ** Ownership *)

Lemma auth_user st req user :
  authMiddleware st req = inr user →
  ∃ uid, x_user_id req = Some uid ∧ get user "id" = VStr uid ∧ user ∈ users st
         ∧ get user "isActive" = VBool true.
Proof.
  unfold authMiddleware. destruct (x_user_id req) as [uid|]; [|discriminate].
  destruct (String.eqb uid ""); [discriminate|].
  destruct (findOne _ _) as [u|] eqn:Hfind; [|discriminate].
  intros [= <-]. apply findOne_Some in Hfind as [Hin Hm].
  unfold matches in Hm. simpl in Hm. rewrite andb_true_r in Hm.
  apply andb_true_iff in Hm as [Hid%bool_decide_eq_true Hact%bool_decide_eq_true].
  exists uid. repeat split; [by apply get_Some|done|by apply get_Some].
Qed.

Lemma handle_authenticated env st req user :
  authMiddleware st req = inr user →
  handle env st POST_containers req = post_containers env st user req
  ∧ handle env st PUT_containers req = put_containers st req
  ∧ handle env st DELETE_containers req = delete_containers st req
  ∧ handle env st GET_items req = get_items st
  ∧ handle env st PUT_items req = put_items st req
  ∧ handle env st PUT_categories req = put_categories st req
  ∧ handle env st GET_sync req = get_sync env st user.
Proof. intros H. simpl. unfold authenticated. by rewrite H. Qed.

Lemma truthy_defined v : truthy v = true → v ≠ VUndef.
Proof. by destruct v. Qed.

Lemma stored_container_owner env st user b :
  get user "id" ≠ VUndef →
  get (to_bson (with_id (oid env) (new_container env st user b))) "ownerId"
  = new_owner st user b.
Proof.
  intros Hid. rewrite get_to_bson; rewrite get_with_id by done;
    change (get (new_container env st user b) "ownerId") with (new_owner st user b);
    [done|].
  unfold new_owner, js_or. repeat case_match; try done. by apply truthy_defined.
Qed.

Lemma ownership_kept env st route req :
  route ≠ POST_containers →
  ownership (containers (handle env st route req).1)
    `sublist_of` ownership (containers st).
Proof.
  intros Hroute. unfold ownership.
  destruct (handle_containers env st route req)
    as [->|[(Hr & _)|[(Hr & ->)|(Hr & ->)]]]; [done|done|..].
  - rewrite (updateOne_fmap (λ c : doc, (get c "id", get c "ownerId"))); [done|].
    intros d. f_equal; apply get_set_other; apply collect_other; compute_done.
  - apply fmap_sublist, deleteOne_sublist.
Qed.

(** C9, as the code has it: the new container takes the owner of the
    parent named in the request when that container exists and has an
    owner, and the creating user otherwise (no parent given, no such
    container, or a parent without owner); creation leaves the stored
    containers as they are, and no other request changes the id or the
    owner of a stored container or adds one. *)
Theorem container_ownership (env : Env) (st : Store) (req : Request) (user : doc) :
  authMiddleware st req = inr user →
  (∃ c, containers (handle env st POST_containers req).1
          = (containers st ++ [c])%list
        ∧ (∀ parentContainer,
             truthy (get (rbody req) "parent") = true →
             findOne [("id", get (rbody req) "parent")] (containers st)
               = Some parentContainer →
             truthy (get parentContainer "ownerId") = true →
             get c "ownerId" = get parentContainer "ownerId")
        ∧ (truthy (get (rbody req) "parent") = false →
           get c "ownerId" = get user "id")
        ∧ (findOne [("id", get (rbody req) "parent")] (containers st) = None →
           get c "ownerId" = get user "id")
        ∧ (∀ parentContainer,
             findOne [("id", get (rbody req) "parent")] (containers st)
               = Some parentContainer →
             truthy (get parentContainer "ownerId") = false →
             get c "ownerId" = get user "id"))
  ∧ (∀ env' route req', route ≠ POST_containers →
       ownership (containers (handle env' st route req').1)
         `sublist_of` ownership (containers st)).
Proof.
  intros Hauth. split; [|intros env' route req'; apply ownership_kept].
  destruct (handle_authenticated env st req user Hauth) as [-> _].
  destruct (auth_user _ _ _ Hauth) as (uid & _ & Huid & _).
  eexists. split; [reflexivity|].
  rewrite stored_container_owner by (rewrite Huid; discriminate).
  unfold new_owner, js_or. repeat split.
  - intros pc -> -> ->. done.
  - by intros ->.
  - intros ->. by destruct (truthy _).
  - intros pc -> ->. by destruct (truthy _).
Qed.

Lemma container_ownership_witness :
  ∃ c, containers (handle sample_env warehouse POST_containers
                     (request "u_bob" "" [("name", VStr "box"); ("parent", VStr "c1")])).1
         = (containers warehouse ++ [c])%list
       ∧ get c "ownerId" = VStr "u_admin".
Proof.
  destruct (proj1 (container_ownership sample_env warehouse
                     (request "u_bob" "" [("name", VStr "box"); ("parent", VStr "c1")])
                     bob_doc eq_refl))
    as (c & Hc & Hparent & _).
  exists c. split; [exact Hc|].
  apply (Hparent (container_doc "c1" VNull "u_admin")); reflexivity.
Defined.

(** C9 as stated fails: the parent [c1700000000000] exists but, created
    by the server without accounts, has no owner; the container bob
    creates in it is bob's. *)
Lemma owner_not_inherited :
  status legacy_creation.2 = 201
  ∧ (get (doc_of legacy_creation.2) "ownerId" = VStr "u_bob"
     ∧ (λ c, get c "ownerId") <$> last (containers legacy_creation.1)
       = Some (VStr "u_bob"))
  ∧ (λ c, get c "ownerId")
      <$> findOne [("id", VStr "c1700000000000")] (containers legacy)
    = Some VUndef.
Proof. by vm_compute. Qed.

(** ** Deleting a container *)

Lemma filter_bool_Prop {A} (f : A → bool) (P : A → Prop) `{∀ x, Decision (P x)}
    (l : list A) :
  (∀ x, f x = true ↔ P x) → List.filter f l = filter P l.
Proof.
  intros Hf. induction l as [|x l IH]; [done|]. cbn [List.filter].
  rewrite IH. destruct (f x) eqn:Hfx.
  - rewrite filter_cons_True; [done|]. by apply Hf.
  - rewrite filter_cons_False; [done|]. rewrite <- Hf. congruence.
Qed.

Lemma no_match_str k s (l : list doc) :
  (∀ d, d ∈ l → matches [(k, VStr s)] d = false) ↔ ¬ ∃ d, d ∈ l ∧ get d k = VStr s.
Proof.
  split.
  - intros H (d & Hd & Hk). apply matches_one_str in Hk. rewrite (H d Hd) in Hk.
    discriminate.
  - intros H d Hd. destruct (matches [(k, VStr s)] d) eqn:Hm; [|done].
    exfalso. apply H. exists d. split; [done|]. by apply matches_one_str.
Qed.

Lemma not_matches_str k s d : matches [(k, VStr s)] d = false ↔ get d k ≠ VStr s.
Proof.
  rewrite <- matches_one_str. destruct (matches _ d); split; congruence.
Qed.



Lemma deleteOne_removed id cs : removed id cs (deleteOne [("id", VStr id)] cs).
Proof.
  destruct (first_match [("id", VStr id)] cs)
    as [Hnone|(l1 & c & l2 & -> & Hc & Hl1)].
  - left. split; [|by apply deleteOne_none].
    intros c Hc. by apply not_matches_str, Hnone.
  - right. exists l1, c, l2. split; [done|]. split; [by apply matches_one_str|].
    split; [|by apply deleteOne_first].
    intros c' Hc'. by apply not_matches_str, Hl1.
Qed.

Lemma deleteMany_filter k s (l : list doc) :
  deleteMany [(k, VStr s)] l = filter (λ d, get d k ≠ VStr s) l.
Proof.
  unfold deleteMany. apply filter_bool_Prop. intros d.
  rewrite negb_true_iff. apply not_matches_str.
Qed.





(** ** Updates *)

Lemma put_outcome ks id b coll :
  "id" ∉ ks →
  update_outcome ks id b coll
    (updateOne [("id", VStr id)] (collect ks b) coll)
    (json_found (findOne [("id", VStr id)]
                   (updateOne [("id", VStr id)] (collect ks b) coll))).
Proof.
  intros Hid. split.
  - intros Hnone.
    assert (∀ d, d ∈ coll → matches [("id", VStr id)] d = false) as Hno
      by (intros d Hd; by apply not_matches_str, Hnone).
    rewrite updateOne_none by done. split; [done|].
    by rewrite (proj2 (findOne_None _ _) Hno).
  - intros l1 d l2 -> Hd Hl1.
    assert (∀ d', d' ∈ l1 → matches [("id", VStr id)] d' = false) as Hno
      by (intros d' Hd'; by apply not_matches_str, Hl1).
    assert (matches [("id", VStr id)] d = true) as Hm by by apply matches_one_str.
    exists (collect ks b ∪ d). split; [|split].
    + intros k. rewrite lookup_set, lookup_collect. by case_bool_decide.
    + by apply updateOne_first.
    + rewrite updateOne_first by done. rewrite findOne_first; [done|done|].
      apply matches_one_str. rewrite get_set_other; [done|].
      by apply collect_other.
Qed.

(** C7, as the code has it: a PUT copies exactly those of the handler's
    keys that the body carries (a key that is absent leaves the field as
    it was, a key carrying [null] sets it to [null]) into the first record
    with the given id, leaves every other record and every other
    collection unchanged and answers 200 with the new record; when no
    record has that id it changes nothing and answers 200 with [null]. *)
Theorem update_applies_present_keys (env : Env) (st : Store) (req : Request)
    (user : doc) (kind : Kind) (st0 : NoAuth.Store) :
  authMiddleware st req = inr user →
  let r := handle env st (put_route kind) req in
  let r1 := NoAuth.put_items st0 req in
  let r2 := NoAuth.put_containers st0 req in
  (update_outcome (updatable kind) (param req) (rbody req)
     (collection kind st) (collection kind r.1) r.2
   ∧ (∀ kind', kind' ≠ kind → collection kind' r.1 = collection kind' st)
   ∧ users r.1 = users st ∧ containerAccess r.1 = containerAccess st)
  ∧ (update_outcome NoAuth.item_keys (param req) (rbody req)
       (NoAuth.items st0) (NoAuth.items r1.1) r1.2
     ∧ NoAuth.containers r1.1 = NoAuth.containers st0
     ∧ NoAuth.categories r1.1 = NoAuth.categories st0)
  ∧ (update_outcome NoAuth.container_keys (param req) (rbody req)
       (NoAuth.containers st0) (NoAuth.containers r2.1) r2.2
     ∧ NoAuth.items r2.1 = NoAuth.items st0
     ∧ NoAuth.categories r2.1 = NoAuth.categories st0).
Proof.
  intros Hauth r r1 r2. subst r r1 r2.
  destruct (handle_authenticated env st req user Hauth)
    as (_ & Hc & _ & _ & Hi & Hk & _).
  split; [|split].
  - destruct kind; cbn [put_route collection updatable]; rewrite ?Hc, ?Hi, ?Hk;
      unfold put_containers, put_items, put_categories; simpl;
      (split; [apply put_outcome; compute_done|]);
      (split; [|done]); intros []; done.
  - split; [|done]. apply put_outcome. compute_done.
  - split; [|done]. apply put_outcome. compute_done.
Qed.

Lemma update_applies_present_keys_witness :
  ∃ d', patched item_keys (list_to_map [("quantity", VNum 5); ("category", VNull)])
          (item_doc "i1" "c2") d'
        ∧ items (handle sample_env warehouse PUT_items
                   (request "u_bob" "i1" [("quantity", VNum 5); ("category", VNull)])).1
          = [d'; item_doc "i9" "c9"].
Proof.
  destruct (update_applies_present_keys sample_env warehouse
              (request "u_bob" "i1" [("quantity", VNum 5); ("category", VNull)])
              bob_doc KItem (NoAuth.mkStore [] [] []) eq_refl)
    as [[[_ Hput] _] _].
  destruct (Hput [] (item_doc "i1" "c2") [item_doc "i9" "c9"]) as (d' & Hd' & Hcoll & _).
  - reflexivity.
  - reflexivity.
  - intros d Hd. by apply elem_of_nil in Hd.
  - exists d'. split; [exact Hd'|exact Hcoll].
Defined.

(** C7 as stated fails: a PUT for an id that no item has is answered with
    status 200 and the body [null], not with NotFound. *)
Lemma update_of_missing_id :
  Forall (λ d, get d "id" ≠ VStr "i404") (items warehouse)
  ∧ handle sample_env warehouse PUT_items (request "u_bob" "i404" [("name", VStr "x")])
    = (warehouse, mkResponse 200 (BVal VNull)).
Proof. split; [compute_done|]. by vm_compute. Qed.

(** ** Redaction of the login code *)

Lemma rest_without_lookup ks (d : doc) k : k ∈ ks → rest_without ks d !! k = None.
Proof.
  unfold rest_without. induction ks as [|k' ks IH]; intros Hk; cbn [foldr].
  - by apply elem_of_nil in Hk.
  - destruct (decide (k = k')) as [->|Hne]; [by rewrite lookup_delete_eq|].
    rewrite lookup_delete_ne by done. apply IH.
    apply elem_of_cons in Hk as [?|?]; done.
Qed.

Lemma safeUser_no_code (user : doc) :
  no_code (delete "_id" (rest_without ["code"] user)).
Proof.
  unfold no_code. rewrite lookup_delete_ne by done.
  apply rest_without_lookup, list_elem_of_here.
Qed.

Lemma login_redacts st req :
  Forall no_code (docs_of (payload (post_auth_login st req).2)).
Proof.
  unfold post_auth_login. repeat case_match; simpl; repeat constructor.
  apply safeUser_no_code.
Qed.

Lemma activate_redacts env st req :
  Forall no_code (docs_of (payload (post_auth_activate env st req).2)).
Proof.
  unfold post_auth_activate. repeat case_match; simpl; repeat constructor.
  apply safeUser_no_code.
Qed.

Lemma listing_redacts st :
  Forall no_code (docs_of (payload (get_users st).2)).
Proof.
  simpl. apply Forall_fmap, Forall_forall. intros u _.
  apply rest_without_lookup, list_elem_of_here.
Qed.

Lemma creation_redacts env st req :
  Forall no_code (docs_of (payload (post_users env st req).2)).
Proof.
  unfold post_users. case_match; simpl; repeat constructor.
Qed.

Lemma as_admin_redacts st req handler :
  Forall no_code (docs_of (payload (handler.2))) →
  Forall no_code (docs_of (payload (as_admin st req (λ _, handler)).2)).
Proof.
  intros H. unfold as_admin, authenticated, authMiddleware, adminOnly.
  repeat case_match; simplify_eq; simpl; try done; repeat constructor.
Qed.

(** C8: whatever the store, the caller and the body, no user document
    in the response of login, activation, user listing or user creation
    has a [code] key. *)
Theorem user_code_never_returned (env : Env) (st : Store) (req : Request) :
  Forall no_code (docs_of (payload (handle env st POST_auth_login req).2))
  ∧ Forall no_code (docs_of (payload (handle env st POST_auth_activate req).2))
  ∧ Forall no_code (docs_of (payload (handle env st GET_users req).2))
  ∧ Forall no_code (docs_of (payload (handle env st POST_users req).2)).
Proof.
  cbn [handle]. repeat split.
  - apply login_redacts.
  - apply activate_redacts.
  - apply as_admin_redacts, listing_redacts.
  - apply as_admin_redacts, creation_redacts.
Qed.

Example login_shows_bob_without_code :
  docs_of (payload (handle sample_env warehouse POST_auth_login
                      (mkRequest None "" None {["code" := VStr "1234"]})).2)
  = [list_to_map [("id", VStr "u_bob"); ("name", VStr "bob");
                  ("isAdmin", VBool false); ("isActive", VBool true);
                  ("inviteToken", VNull); ("inviteExpires", VNull)]].
Proof. by vm_compute. Qed.

(** ** Listing items *)

(** C10: GET /items answers every authenticated caller, administrator
    or not, with all items of the store; bob, who is no administrator,
    receives the item [i9] of a container that his sync leaves out. *)
Theorem item_listing_unfiltered (env : Env) (st : Store) (req : Request)
    (user : doc) :
  authMiddleware st req = inr user →
  handle env st GET_items req = (st, mkResponse 200 (BDocs (items st)))
  ∧ (truthy (get bob_doc "isAdmin") = false
     ∧ item_doc "i9" "c9"
         ∈ docs_of (payload (handle sample_env warehouse GET_items
                               (request "u_bob" "" [])).2)
     ∧ item_doc "i9" "c9"
         ∉ docs_under "items" (handle sample_env warehouse GET_sync
                                 (request "u_bob" "" [])).2).
Proof.
  intros Hauth.
  destruct (handle_authenticated env st req user Hauth) as (_ & _ & _ & -> & _).
  split; [done|]. split; [done|]. split; compute_done.
Qed.

Lemma item_listing_unfiltered_witness :
  handle sample_env warehouse GET_items (request "u_bob" "" [])
  = (warehouse, mkResponse 200 (BDocs [item_doc "i1" "c2"; item_doc "i9" "c9"])).
Proof.
  apply (item_listing_unfiltered sample_env warehouse (request "u_bob" "" [])
           bob_doc eq_refl).
Defined.

(** ** Sync *)

Lemma bson_leb_total a b : bson_leb a b = true ∨ bson_leb b a = true.
Proof.
  unfold bson_leb. destruct (bson_key a) as [[r1 z1] s1], (bson_key b) as [[r2 z2] s2].
  destruct (Nat.lt_trichotomy r1 r2) as [Hr|[->|Hr]].
  - left. apply Nat.ltb_lt in Hr. by rewrite Hr.
  - rewrite Nat.ltb_irrefl, Nat.eqb_refl. simpl.
    destruct (Z.lt_trichotomy z1 z2) as [Hz|[->|Hz]].
    + left. apply Z.ltb_lt in Hz. by rewrite Hz.
    + rewrite Z.ltb_irrefl, Z.eqb_refl. simpl. apply String.leb_total.
    + right. apply Z.ltb_lt in Hz. by rewrite Hz.
  - right. apply Nat.ltb_lt in Hr. by rewrite Hr.
Qed.

#[global] Instance order_le_total : Total order_le.
Proof.
  intros a b. unfold order_le.
  destruct (bson_leb_total (get a "order") (get b "order")) as [H|H];
    rewrite H; [left|right]; done.
Qed.

Lemma filter_bool_Prop_on {A} (f : A → bool) (P : A → Prop) `{∀ x, Decision (P x)}
    (l : list A) :
  (∀ x, x ∈ l → (f x = true ↔ P x)) → List.filter f l = filter P l.
Proof.
  induction l as [|x l IH]; intros Hf; [done|]. cbn [List.filter].
  rewrite IH by (intros y Hy; apply Hf, elem_of_cons; by right).
  pose proof (Hf x (list_elem_of_here _ _)) as Hx. destruct (f x) eqn:Hfx.
  - rewrite filter_cons_True; [done|]. by apply Hx.
  - rewrite filter_cons_False; [done|]. rewrite <- Hx. congruence.
Qed.

Lemma is_string_inv v : is_string v = true → ∃ s, v = VStr s.
Proof. destruct v; try discriminate. eauto. Qed.

Lemma descendant_is_id cs r x : descendant cs r x → ∃ c, c ∈ cs ∧ get c "id" = x.
Proof.
  unfold descendant. induction 1 as [r x (c & Hc & _ & Hid)|]; eauto.
Qed.

(** In a well-formed store every accessible id is the id of a container. *)
Lemma accessible_is_id st u x :
  well_formed st → accessible st u x → ∃ c, c ∈ containers st ∧ get c "id" = x.
Proof.
  intros [_ Hgr] [[(c & Hc & _ & Hid)|(a & Ha & _ & Hid)]|(r & _ & Hd)].
  - eauto.
  - rewrite Forall_forall in Hgr. apply Hgr in Ha. rewrite Hid in Ha.
    apply list_elem_of_fmap in Ha as (c & -> & Hc). eauto.
  - by eapply descendant_is_id.
Qed.

Lemma sync_containers (S : list value) (cs : list doc) :
  Forall (λ c, is_string (get c "id") = true) cs →
  List.filter (λ c, Set_has S (get c "id")) cs = filter (λ c, get c "id" ∈ S) cs.
Proof.
  intros Hstr. apply filter_bool_Prop_on. intros c Hc.
  rewrite Forall_forall in Hstr.
  destruct (is_string_inv _ (Hstr c Hc)) as [s ->]. apply Set_has_str.
Qed.

Lemma sync_items (cs its : list doc) :
  Forall (λ c, is_string (get c "id") = true) cs →
  List.filter (λ i, Set_has (Set_of ((λ c, get c "id") <$> cs)) (get i "container")) its
  = filter (λ i, get i "container" ∈ (λ c, get c "id") <$> cs) its.
Proof.
  intros Hstr. apply filter_bool_Prop_on. intros i _. split.
  - intros Hin%Set_has_elem. by apply (proj1 (elem_of_Set_of _ _)) in Hin.
  - cbn beta. intros Hin. pose proof Hin as (c & Heq & Hc)%list_elem_of_fmap.
    rewrite Forall_forall in Hstr.
    destruct (is_string_inv _ (Hstr c Hc)) as [s Hs].
    rewrite Heq, Hs. apply Set_has_str, elem_of_Set_of. by rewrite <- Hs, <- Heq.
Qed.

(** When every access row names a stored container, the items of the
    returned containers are the items of the accessible ones. *)
Lemma items_of_accessible depth st u S :
  well_formed st →
  getAccessibleContainerIds depth st (VStr u) = Some S →
  filter (λ i, get i "container" ∈
               (λ c, get c "id") <$> filter (λ c, get c "id" ∈ S) (containers st))
    (items st)
  = filter (λ i, get i "container" ∈ S) (items st).
Proof.
  intros Hwf HS. apply list_filter_iff. intros i. split.
  - intros (c & -> & [Hin _]%list_elem_of_filter)%list_elem_of_fmap. done.
  - intros Hin.
    destruct (accessible_is_id st u (get i "container") Hwf) as (c & Hc & Heq).
    { by apply (accessible_elem depth st u S). }
    rewrite <- Heq. apply (list_elem_of_fmap_2 (λ c : doc, get c "id")).
    apply list_elem_of_filter. split; [by rewrite Heq|done].
Qed.

(** Numbers are sorted by their value, and apart from the other types. *)
Lemma bson_leb_rank a b :
  bson_leb a b = true →
  ((bson_key a).1.1 < (bson_key b).1.1)%nat
  ∨ ((bson_key a).1.1 = (bson_key b).1.1 ∧ (bson_key a).1.2 ≤ (bson_key b).1.2).
Proof.
  unfold bson_leb. destruct (bson_key a) as [[r1 z1] s1], (bson_key b) as [[r2 z2] s2].
  cbn [fst snd].
  rewrite orb_true_iff, andb_true_iff, orb_true_iff, andb_true_iff,
    Nat.ltb_lt, Nat.eqb_eq, Z.ltb_lt, Z.eqb_eq. lia.
Qed.

Lemma StronglySorted_lookup {A} (R : relation A) (l : list A) :
  StronglySorted R l →
  ∀ (i j : nat) x y, (i < j)%nat → l !! i = Some x → l !! j = Some y → R x y.
Proof.
  induction 1 as [|a l _ IH Hall]; intros i j x y Hlt Hi Hj; [done|].
  destruct j as [|j]; [lia|]. cbn in Hj. destruct i as [|i]; cbn in Hi.
  - injection Hi as <-. rewrite Forall_forall in Hall. apply Hall.
    by eapply list_elem_of_lookup_2.
  - apply (IH i j); [lia|done..].
Qed.

Lemma sorted_ascending (cats : list doc) :
  Sorted order_le cats → ascending_by_order cats.
Proof.
  intros Hs.
  set (R := λ a b : doc,
         ((bson_key (get a "order")).1.1 < (bson_key (get b "order")).1.1)%nat
         ∨ ((bson_key (get a "order")).1.1 = (bson_key (get b "order")).1.1
            ∧ (bson_key (get a "order")).1.2 ≤ (bson_key (get b "order")).1.2)).
  assert (Transitive R) as Htrans by (intros a b c; unfold R; lia).
  assert (Sorted R cats) as HsR.
  { induction Hs as [|a l _ IH Hhd]; constructor; [done|].
    destruct Hhd as [|b l Hab]; constructor.
    apply bson_leb_rank. by apply Is_true_true. }
  apply (Sorted_StronglySorted R) in HsR.
  intros i j ci cj m n Hlt Hi Hj Hm Hn.
  pose proof (StronglySorted_lookup R cats HsR i j ci cj Hlt Hi Hj) as Hr.
  unfold R in Hr. rewrite Hm, Hn in Hr. cbn in Hr. lia.
Qed.

Lemma sorted_by_order_spec cats :
  sorted_by_order cats ≡ₚ cats ∧ ascending_by_order (sorted_by_order cats).
Proof.
  split; [apply merge_sort_Permutation|].
  apply sorted_ascending, (Sorted_merge_sort order_le).
Qed.

(** C4, as the code has it: an administrator's sync returns all
    containers, all items and the categories sorted by [order]. For any
    other authenticated user, on a store whose container ids are
    strings: when [getAccessibleContainerIds] returns a set, sync returns
    the containers whose id is in it, the items whose [container] is the
    id of one of the returned containers, and the same sorted categories;
    these items are the items whose [container] is in the set when every
    access row names a stored container. When the resolver raises, sync
    answers 500. The resolver returns when no cycle of parent links can
    be reached from the user's owned or granted containers and the stack
    admits more nested calls than there are containers, and raises when
    such a cycle can be reached. *)
Theorem sync_returns (env : Env) (st : Store) (req : Request) (user : doc) :
  authMiddleware st req = inr user →
  let r := handle env st GET_sync req in
  let cats := sorted_by_order (categories st) in
  let ids := getAccessibleContainerIds (stack env) st (get user "id") in
  (cats ≡ₚ categories st ∧ ascending_by_order cats)
  ∧ (truthy (get user "isAdmin") = true →
     r = (st, sync_reply (containers st) (items st) cats))
  ∧ (truthy (get user "isAdmin") = false →
     Forall (λ c, is_string (get c "id") = true) (containers st) →
     ∀ S, ids = Some S →
          let cs := filter (λ c, get c "id" ∈ S) (containers st) in
          let its := filter (λ i, get i "container" ∈ (λ c, get c "id") <$> cs)
                       (items st) in
          r = (st, sync_reply cs its cats)
          ∧ (well_formed st →
             its = filter (λ i, get i "container" ∈ S) (items st)))
  ∧ (truthy (get user "isAdmin") = false → ids = None →
     r = (st, error 500 "Maximum call stack size exceeded"))
  ∧ (∀ u, get user "id" = VStr u →
       ((∀ r0, root_access st u r0 → cycle_free_below (containers st) r0) →
        (length (containers st) < stack env)%nat → is_Some ids)
       ∧ ((∃ r0 x, root_access st u r0 ∧ rtc (child_of (containers st)) r0 x
                   ∧ descendant (containers st) x x) →
          ids = None)).
Proof.
  intros Hauth r cats ids. subst r cats ids.
  destruct (handle_authenticated env st req user Hauth) as (_ & _ & _ & _ & _ & _ & ->).
  destruct (auth_user _ _ _ Hauth) as (u & _ & Hu & _).
  split; [apply sorted_by_order_spec|]. unfold get_sync. split; [|split; [|split]].
  - by intros ->.
  - intros -> Hstr S HS. cbv zeta. rewrite HS. split.
    + rewrite (sync_containers S _ Hstr), sync_items; [done|].
      rewrite Forall_forall in Hstr |- *.
      intros c [_ Hc]%list_elem_of_filter. by apply Hstr.
    + intros Hwf. rewrite Hu in HS. by apply (items_of_accessible (stack env) st u).
  - by intros -> ->.
  - intros u' Hu'. rewrite Hu'. split.
    + intros Hfree Hdepth. by apply returns_when_cycle_free.
    + intros (r0 & x & Hr & Hrx & Hxx). by eapply overflows_on_reachable_cycle.
Qed.

Lemma sync_returns_witness :
  handle sample_env warehouse GET_sync (request "u_bob" "" [])
  = (warehouse,
     sync_reply
       (filter (λ c, get c "id" ∈ [VStr "c1"; VStr "c2"]) (containers warehouse))
       (filter (λ i, get i "container" ∈
                     (λ c, get c "id") <$>
                       filter (λ c, get c "id" ∈ [VStr "c1"; VStr "c2"])
                         (containers warehouse))
          (items warehouse))
       (sorted_by_order (categories warehouse))).
Proof.
  destruct (sync_returns sample_env warehouse (request "u_bob" "" []) bob_doc eq_refl)
    as (_ & _ & Hbob & _).
  apply Hbob.
  - reflexivity.
  - compute_done.
  - by vm_compute.
Defined.

Example bob_syncs :
  handle sample_env warehouse GET_sync (request "u_bob" "" [])
  = (warehouse,
     sync_reply [container_doc "c1" VNull "u_admin";
                 container_doc "c2" (VStr "c1") "u_admin"]
                [item_doc "i1" "c2"]
                [category_doc "cat1" 1; category_doc "cat2" 2]).
Proof. by vm_compute. Qed.

(** C4 as stated fails twice. After bob's PUT /containers/c1 with
    [{parent: "c2"}] his sync is answered 500 on every stack; and when an
    access row names a container that is not stored, an item whose
    [container] is in the returned set is left out of his sync. *)
Lemma sync_fails_or_hides_item :
  (∀ env, (handle env reparented GET_sync (request "u_bob" "" [])).2
          = error 500 "Maximum call stack size exceeded")
  ∧ (∃ S, getAccessibleContainerIds (stack sample_env) orphaned (VStr "u_bob") = Some S
          ∧ get (item_doc "i7" "c7") "container" ∈ S
          ∧ item_doc "i7" "c7" ∈ items orphaned
          ∧ item_doc "i7" "c7"
            ∉ docs_under "items"
                (handle sample_env orphaned GET_sync (request "u_bob" "" [])).2).
Proof.
  split.
  - intros env.
    assert (users reparented = users warehouse) as Hus by reflexivity.
    assert (authMiddleware reparented (request "u_bob" "" []) = inr bob_doc) as Hauth
      by (unfold authMiddleware; rewrite Hus; reflexivity).
    destruct (handle_authenticated env _ _ _ Hauth) as (_ & _ & _ & _ & _ & _ & ->).
    unfold get_sync.
    replace (truthy (get bob_doc "isAdmin")) with false by reflexivity.
    replace (get bob_doc "id") with (VStr "u_bob") by reflexivity.
    rewrite (overflows_on_reachable_cycle reparented "u_bob" (VStr "c1") (VStr "c1"));
      [done|apply reparented_root|apply rtc_refl|apply reparented_cycle].
  - exists [VStr "c1"; VStr "c7"; VStr "c2"]. split; [reflexivity|].
    split; [compute_done|]. split; [compute_done|]. compute_done.
Qed.

(** ** Activation *)

Lemma find_app q (l1 l2 : list doc) : find q (l1 ++ l2) = (find q l1 ++ find q l2)%list.
Proof. apply List.filter_app. Qed.

Lemma find_cons q d (l : list doc) :
  find q (d :: l) = if matches q d then d :: find q l else find q l.
Proof. reflexivity. Qed.

Lemma find_singleton_split q (l : list doc) u :
  find q l = [u] →
  ∃ l1 l2, l = (l1 ++ u :: l2)%list ∧ find q l1 = [] ∧ find q l2 = []
           ∧ matches q u = true.
Proof.
  induction l as [|d l IH]; [discriminate|]. rewrite find_cons.
  destruct (matches q d) eqn:Hm.
  - intros [= -> Hrest]. exists [], l. by rewrite Hrest.
  - intros (l1 & l2 & -> & H1 & H2 & Hu)%IH. exists (d :: l1), l2.
    split; [done|]. rewrite find_cons, Hm. done.
Qed.

Lemma find_middle q (l1 l2 : list doc) u d :
  find q (l1 ++ u :: l2) = [d] → matches q u = true →
  find q l1 = [] ∧ find q l2 = [].
Proof.
  rewrite find_app, find_cons. intros H Hu. rewrite Hu in H.
  destruct (find q l1) as [|x r1]; [|destruct r1; discriminate].
  simpl in H. destruct (find q l2); [done|discriminate].
Qed.

Lemma find_nil_middle q (l1 l2 : list doc) u :
  find q (l1 ++ u :: l2) = [] → find q l1 = [] ∧ find q l2 = [] ∧ matches q u = false.
Proof.
  rewrite find_app, find_cons. destruct (matches q u).
  - intros H. apply app_eq_nil in H as [_ H]. discriminate.
  - intros H. by apply app_eq_nil in H as [-> ->].
Qed.

Lemma findOne_nil q (l : list doc) : findOne q l = None ↔ find q l = [].
Proof. unfold findOne. destruct (find q l); split; done. Qed.

Lemma matches_ext q (d d' : doc) :
  (∀ kv, kv ∈ q → d !! kv.1 = d' !! kv.1) → matches q d = matches q d'.
Proof.
  unfold matches. induction q as [|kv q IH]; intros H; [done|]. cbn [forallb].
  rewrite IH by (intros kv' Hkv'; apply H, elem_of_cons; by right).
  unfold field_matches. by rewrite (H kv (list_elem_of_here _ _)).
Qed.

Lemma activation_lookup code (u : doc) :
  (activation code ∪ u) !! "code" = Some code
  ∧ (activation code ∪ u) !! "isActive" = Some (VBool true)
  ∧ (activation code ∪ u) !! "inviteToken" = Some VNull
  ∧ (activation code ∪ u) !! "inviteExpires" = Some VNull
  ∧ ∀ k, k ∉ ["code"; "isActive"; "inviteToken"; "inviteExpires"] →
         (activation code ∪ u) !! k = u !! k.
Proof.
  repeat split; try (rewrite lookup_set; reflexivity).
  intros k Hk. rewrite lookup_set. unfold activation.
  rewrite !lookup_insert_ne, lookup_empty; [done|..];
    intros <-; apply Hk; compute_done.
Qed.

Lemma truthy_query_field (d : doc) k v :
  truthy v = true → field_matches d (k, v) = bool_decide (d !! k = Some v).
Proof. by destruct v. Qed.

Lemma activate_body T code :
  get (rbody (activate_request T code)) "inviteToken" = T
  ∧ get (rbody (activate_request T code)) "code" = code.
Proof. split; reflexivity. Qed.

Lemma find_nil_all q (l : list doc) :
  find q l = [] → ∀ d, d ∈ l → matches q d = false.
Proof. apply find_nil_iff. Qed.

(** The first activation with a fresh, well-formed code. *)
Lemma first_activation_succeeds env st T code u l1 l2 :
  truthy T = true → truthy code = true → code_accepted code = true →
  findOne [("code", code); ("isActive", VBool true)] (users st) = None →
  find [("inviteToken", T); ("isActive", VBool false)] (users st) = [u] →
  users st = (l1 ++ u :: l2)%list →
  find [("id", get u "id")] l1 = [] →
  matches [("id", get u "id")] u = true →
  invite_expired env u = false →
  post_auth_activate env st (activate_request T code)
  = (mkStore (l1 ++ (activation code ∪ u) :: l2) (containers st) (items st)
       (categories st) (containerAccess st),
     mkResponse 200
       (BObj [("user", FDoc (delete "_id" (rest_without ["code"] (activation code ∪ u))))])).
Proof.
  intros HT Hc Hacc Hfree Hinv Hl Hid1 Hmu Hexp.
  assert (matches [("id", get u "id")] (activation code ∪ u) = true) as Hmu'.
  { rewrite (matches_ext _ (activation code ∪ u) u); [exact Hmu|].
    intros kv ->%list_elem_of_singleton. apply activation_lookup. compute_done. }
  unfold post_auth_activate.
  destruct (activate_body T code) as [-> ->].
  rewrite HT, Hc, Hacc, Hfree. cbn [negb orb].
  unfold findOne at 1. rewrite Hinv. cbn [head]. rewrite Hexp, Hl.
  rewrite updateOne_first by (by apply find_nil_all || done).
  rewrite findOne_first by (by apply find_nil_all || done). done.
Qed.

(** Without an inactive holder of the token no activation succeeds. *)
Lemma activation_without_invite env st T code' :
  truthy T = true →
  find [("inviteToken", T); ("isActive", VBool false)] (users st) = [] →
  let r := post_auth_activate env st (activate_request T code') in
  r.1 = st
  ∧ (status r.2 = 400 ∨ r.2 = invite_not_found)
  ∧ (truthy code' = true → code_accepted code' = true →
     findOne [("code", code'); ("isActive", VBool true)] (users st) = None →
     r.2 = invite_not_found)
  ∧ (truthy code' = true → code_accepted code' = true →
     is_Some (findOne [("code", code'); ("isActive", VBool true)] (users st)) →
     r.2 = code_taken).
Proof.
  intros HT Hinv r. subst r. unfold post_auth_activate.
  destruct (activate_body T code') as [-> ->]. rewrite HT. cbn [negb orb].
  apply findOne_nil in Hinv. rewrite Hinv.
  destruct (truthy code'); cbn [negb]; [|by repeat split; auto].
  destruct (code_accepted code'); cbn [negb]; [|by repeat split; auto].
  destruct (findOne [("code", code'); ("isActive", VBool true)] (users st)) as [d|].
  - repeat split; auto. by intros _ _ [=].
  - repeat split; auto. by intros _ _ [? [=]].
Qed.

(** A code that is missing, malformed or taken is refused with 400,
    whatever the token. *)
Lemma activation_bad_code env st T code' :
  truthy T = true →
  truthy code' = false ∨ code_accepted code' = false
  ∨ is_Some (findOne [("code", code'); ("isActive", VBool true)] (users st)) →
  status (post_auth_activate env st (activate_request T code')).2 = 400.
Proof.
  intros HT Hbad. unfold post_auth_activate.
  destruct (activate_body T code') as [-> ->]. rewrite HT. cbn [negb orb].
  destruct (truthy code'); cbn [negb]; [|done].
  destruct (code_accepted code'); cbn [negb]; [|done].
  destruct (findOne [("code", code'); ("isActive", VBool true)] (users st)) as [d|];
    [done|].
  destruct Hbad as [?|[?|[? ?]]]; discriminate.
Qed.

(** C6, as the code has it: when exactly one inactive user, with an id
    of its own and an invite that has not expired, holds the token, and
    the code is well-formed and not the code of an active user, the
    first activation answers 200 and sets that user's code, makes it
    active and clears its token and expiry, leaving the other users as
    they were; every later activation with the same token leaves the
    store alone and fails, with 404 "not found" when the code offered
    is well-formed and free (so not the code just chosen), and with 400
    otherwise: 400 "code taken" when it is the code just chosen. *)
Theorem activate_single_use (env env' : Env) (st : Store) (T code code' : value)
    (u : doc) :
  truthy T = true → truthy code = true → code_accepted code = true →
  findOne [("code", code); ("isActive", VBool true)] (users st) = None →
  find [("inviteToken", T); ("isActive", VBool false)] (users st) = [u] →
  find [("id", get u "id")] (users st) = [u] →
  invite_expired env u = false →
  let first := handle env st POST_auth_activate (activate_request T code) in
  let second := handle env' first.1 POST_auth_activate (activate_request T code') in
  let u' := activation code ∪ u in
  (first.2 = mkResponse 200
               (BObj [("user", FDoc (delete "_id" (rest_without ["code"] u')))])
   ∧ (∃ l1 l2, users st = (l1 ++ u :: l2)%list
               ∧ users first.1 = (l1 ++ u' :: l2)%list)
   ∧ u' !! "code" = Some code ∧ u' !! "isActive" = Some (VBool true)
   ∧ u' !! "inviteToken" = Some VNull ∧ u' !! "inviteExpires" = Some VNull
   ∧ (∀ k, k ∉ ["code"; "isActive"; "inviteToken"; "inviteExpires"] →
           u' !! k = u !! k))
  ∧ second.1 = first.1
  ∧ (status second.2 = 400 ∨ second.2 = invite_not_found)
  ∧ (code' = code → second.2 = code_taken)
  ∧ (truthy code' = true → code_accepted code' = true → code' ≠ code →
     findOne [("code", code'); ("isActive", VBool true)] (users st) = None →
     second.2 = invite_not_found)
  ∧ (truthy code' = false ∨ code_accepted code' = false
     ∨ is_Some (findOne [("code", code'); ("isActive", VBool true)] (users first.1)) →
     status second.2 = 400).
Proof.
  intros HT Hc Hacc Hfree Hinv Hid Hexp first second u'. subst first second u'.
  cbn [handle].
  destruct (find_singleton_split _ _ _ Hid) as (l1 & l2 & Hl & Hid1 & Hid2 & Hmu).
  rewrite (first_activation_succeeds env st T code u l1 l2) by done.
  cbn [fst snd].
  destruct (activation_lookup code u) as (Hcode & Hact & Htok & Hexpd & Hrest).
  assert (matches [("inviteToken", T); ("isActive", VBool false)] u = true) as Hmi.
  { assert (u ∈ find [("inviteToken", T); ("isActive", VBool false)] (users st)) as Hin
      by (rewrite Hinv; apply list_elem_of_here).
    by apply elem_of_filter_bool in Hin as [_ ?]. }
  rewrite Hl in Hinv. destruct (find_middle _ _ _ _ _ Hinv Hmi) as [Hi1 Hi2].
  assert (matches [("inviteToken", T); ("isActive", VBool false)] (activation code ∪ u)
          = false) as Hmi'.
  { unfold matches. cbn [forallb]. rewrite andb_true_r.
    apply andb_false_iff. right. unfold field_matches. cbn [fst snd].
    rewrite Hact. by apply bool_decide_eq_false_2. }
  set (st' := mkStore (l1 ++ (activation code ∪ u) :: l2) (containers st) (items st)
                (categories st) (containerAccess st)).
  assert (find [("inviteToken", T); ("isActive", VBool false)] (users st') = [])
    as Hgone.
  { cbn [users st']. by rewrite find_app, find_cons, Hmi', Hi1, Hi2. }
  destruct (activation_without_invite env' st' T code' HT Hgone)
    as (Hst & Hfail & Hnf & Htaken).
  split; [|split; [exact Hst|split; [exact Hfail|split; [|split]]]].
  - split; [done|]. split; [by exists l1, l2|]. done.
  - intros ->. apply Htaken; [done|done|].
    destruct (findOne _ (users st')) as [d|] eqn:Hnone; [by eexists|exfalso].
    apply findOne_nil in Hnone. cbn [users st'] in Hnone.
    apply find_nil_middle in Hnone as (_ & _ & Hm).
    unfold matches in Hm. cbn [forallb] in Hm.
    rewrite truthy_query_field in Hm by done.
    unfold field_matches in Hm. cbn [fst snd] in Hm.
    rewrite Hcode, Hact in Hm. by rewrite !bool_decide_eq_true_2 in Hm.
  - intros Hc' Hacc' Hne Hfree'. apply Hnf; [done|done|].
    apply findOne_nil. apply findOne_nil in Hfree'. rewrite Hl in Hfree'.
    apply find_nil_middle in Hfree' as (Hf1 & Hf2 & _).
    cbn [users st']. rewrite find_app, find_cons, Hf1, Hf2.
    assert (matches [("code", code'); ("isActive", VBool true)] (activation code ∪ u)
            = false) as ->; [|done].
    unfold matches. cbn [forallb]. rewrite truthy_query_field by done.
    rewrite Hcode. rewrite bool_decide_eq_false_2; [done|]. congruence.
  - intros Hbad. by apply (activation_bad_code env' st' T code').
Qed.

Lemma activate_single_use_witness :
  first_activation.2
  = mkResponse 200
      (BObj [("user", FDoc (delete "_id" (rest_without ["code"]
                                           (activation (VStr "4321") ∪ carol_doc))))])
  ∧ (handle later_env first_activation.1 POST_auth_activate
       (activate_request (VStr "tok") (VStr "8765"))).2 = invite_not_found.
Proof.
  pose proof (activate_single_use sample_env later_env invited (VStr "tok")
                (VStr "4321") (VStr "8765") carol_doc
                eq_refl eq_refl eq_refl eq_refl eq_refl eq_refl eq_refl) as H.
  cbv zeta in H. destruct H as ((Hfirst & _) & _ & _ & _ & Hsecond & _).
  split; [exact Hfirst|]. apply Hsecond; [reflexivity|reflexivity|discriminate|reflexivity].
Defined.

(** C6 as stated fails: the second activation with the same token and
    the code chosen the first time is refused with 400 "code taken", not
    with NotFound. *)
Lemma second_activation_same_code :
  status first_activation.2 = 200
  ∧ second_activation.2 = code_taken
  ∧ status second_activation.2 ≠ 404.
Proof. by vm_compute. Qed.

(** ** Well-formed stores stay well-formed *)

Lemma access_guard_passed st user req :
  access_guard st user req = None →
  ∃ c, c ∈ containers st ∧ get c "id" = get (rbody req) "containerId"
       ∧ get (rbody req) "containerId" ≠ VUndef.
Proof.
  unfold access_guard.
  destruct (truthy (get (rbody req) "containerId")) eqn:Hcid; [|discriminate].
  destruct (truthy (get (rbody req) "userId")); [|discriminate]. cbn [negb orb].
  destruct (findOne _ _) as [c|] eqn:Hfind; [|discriminate].
  intros _. apply findOne_Some in Hfind as [Hc Hm]. exists c. split; [done|].
  split; [|by apply truthy_defined].
  unfold matches in Hm. cbn [forallb] in Hm. rewrite andb_true_r in Hm.
  rewrite truthy_query_field in Hm by done.
  by apply bool_decide_eq_true, get_Some in Hm.
Qed.

Lemma handle_effect env st route req :
  let st' := (handle env st route req).1 in
  (containers st' = containers st ∧ containerAccess st' = containerAccess st)
  ∨ (∃ c, get c "id" = VStr ("c" +:+ pretty (now env))
          ∧ containers st' = (containers st ++ [c])%list
          ∧ containerAccess st' = containerAccess st)
  ∨ (containers st'
       = updateOne [("id", VStr (param req))] (collect container_keys (rbody req))
           (containers st)
     ∧ containerAccess st' = containerAccess st)
  ∨ (containers st' = deleteOne [("id", VStr (param req))] (containers st)
     ∧ containerAccess st'
       = deleteMany [("containerId", VStr (param req))] (containerAccess st))
  ∨ (containers st' = containers st
     ∧ ∃ row c, containerAccess st' = (containerAccess st ++ [row])%list
                ∧ c ∈ containers st ∧ get c "id" = get row "containerId")
  ∨ (containers st' = containers st
     ∧ containerAccess st' `sublist_of` containerAccess st).
Proof.
  destruct route; cbn [handle];
    unfold as_admin, authenticated, post_auth_login, post_auth_activate,
      get_auth_invite, get_users, post_users, delete_users, post_users_reset,
      get_sync, get_containers, post_containers, put_containers, delete_containers,
      get_items, post_items, put_items, delete_items, get_categories,
      post_categories, put_categories, delete_categories, post_container_access,
      delete_container_access, get_container_access, get_search;
    repeat case_match; cbn [fst containers containerAccess];
    first
      [ by left
      | right; left; eexists; split; [apply stored_container_id|by split]
      | right; right; left; by split
      | right; right; right; left; by split
      | do 5 right; split;
          [done|first [apply deleteOne_sublist|apply deleteMany_sublist]]
      | idtac ].
  match goal with H : access_guard _ _ _ = None |- _ =>
    apply access_guard_passed in H as (c & Hc & Hid & Hdef) end.
  do 4 right. left. split; [done|]. eexists _, c. split; [reflexivity|].
  split; [done|]. rewrite Hid, get_to_bson, get_with_id; try done.
Qed.

Lemma elem_of_deleteOne q (l : list doc) d :
  d ∈ l → matches q d = false → d ∈ deleteOne q l.
Proof.
  intros Hd Hm. induction l as [|d0 l IH]; [done|]. rewrite deleteOne_cons.
  apply elem_of_cons in Hd as [Heq|Hd].
  - subst d0. rewrite Hm. apply list_elem_of_here.
  - destruct (matches q d0); [done|]. apply elem_of_cons. right. by apply IH.
Qed.

Lemma elem_of_deleteOne_other k s (l : list doc) x :
  x ∈ (λ d, get d k) <$> l → x ≠ VStr s →
  x ∈ (λ d, get d k) <$> deleteOne [(k, VStr s)] l.
Proof.
  intros (d & -> & Hd)%list_elem_of_fmap Hne.
  apply (list_elem_of_fmap_2 (λ d : doc, get d k)), elem_of_deleteOne; [done|].
  by apply not_matches_str.
Qed.

(** The shape of the store that C4 relies on is kept by every request. *)
Lemma well_formed_preserved env st route req :
  well_formed st → well_formed (handle env st route req).1.
Proof.
  intros [Hstr Hgr]. unfold well_formed.
  destruct (handle_effect env st route req)
    as [[-> ->]|[(c & Hid & -> & ->)|[[-> ->]|[[-> ->]|[(-> & row & c & -> & Hc & Hid)
       |[-> Hsub]]]]]].
  - done.
  - split.
    + apply Forall_app. split; [done|]. apply Forall_singleton. by rewrite Hid.
    + eapply Forall_impl; [exact Hgr|]. intros a Ha. rewrite fmap_app.
      apply elem_of_app. by left.
  - assert ((λ c : doc, get c "id") <$>
              updateOne [("id", VStr (param req))]
                (collect container_keys (rbody req)) (containers st)
            = (λ c : doc, get c "id") <$> containers st) as Hids.
    { apply (updateOne_fmap (λ c : doc, get c "id")). intros d.
      apply get_set_other, collect_other. compute_done. }
    split; [|by rewrite Hids].
    apply (Forall_fmap (λ c : doc, get c "id") (λ v, is_string v = true)).
    rewrite Hids. by apply Forall_fmap.
  - split.
    + rewrite Forall_forall in Hstr |- *. intros c Hc. apply Hstr.
      eapply elem_of_sublist; [exact Hc|apply deleteOne_sublist].
    + rewrite deleteMany_filter. rewrite Forall_forall in Hgr |- *.
      intros a [Hne Ha]%list_elem_of_filter.
      apply elem_of_deleteOne_other; [by apply Hgr|done].
  - split; [done|]. apply Forall_app. split; [done|]. apply Forall_singleton.
    rewrite <- Hid. by apply (list_elem_of_fmap_2 (λ c : doc, get c "id")).
  - split; [done|]. rewrite Forall_forall in Hgr |- *. intros a Ha.
    apply Hgr. by eapply elem_of_sublist.
Qed.

(** From an empty database on, every store the server reaches is
    well-formed. *)
Lemma well_formed_reachable oids reqs :
  well_formed (run reqs (connectDB oids empty_store)).
Proof.
  assert (well_formed (connectDB oids empty_store)) as Hinit
    by (split; constructor).
  revert Hinit. generalize (connectDB oids empty_store).
  unfold run. induction reqs as [|r reqs IH]; intros st Hst; [done|].
  apply IH. by apply well_formed_preserved.
Qed.

(** ** The gate in front of the handlers *)

Lemma lookup_get (d : doc) k v : v ≠ VUndef → d !! k = Some v ↔ get d k = v.
Proof.
  intros Hv. unfold get. destruct (d !! k) as [w|]; simpl; split; intros H;
    congruence.
Qed.

Lemma matches_active_id h (d : doc) :
  matches [("id", VStr h); ("isActive", VBool true)] d = true
  ↔ get d "id" = VStr h ∧ get d "isActive" = VBool true.
Proof.
  unfold matches, field_matches. cbn [forallb fst snd].
  rewrite andb_true_r, andb_true_iff, !bool_decide_eq_true, !lookup_get by done.
  done.
Qed.

Lemma auth_refused st req :
  x_user_id req = None ∨ x_user_id req = Some ""
  ∨ (∃ h, x_user_id req = Some h ∧ no_active_user st h) →
  ∃ r, authMiddleware st req = inl r ∧ status r = 401.
Proof.
  unfold authMiddleware. intros [->|[->|(h & -> & Hnone)]]; [by eexists..|].
  destruct (String.eqb h ""); [by eexists|].
  rewrite (proj2 (findOne_None _ _)); [by eexists|].
  intros d Hd. destruct (matches _ d) eqn:Hm; [|done].
  apply matches_active_id in Hm. unfold no_active_user in Hnone.
  rewrite Forall_forall in Hnone. by destruct (Hnone d Hd).
Qed.

(** X1: a request to a route behind [authMiddleware] that carries no
    [x-user-id], an empty one, or the id of no active user is answered
    401 and leaves the store as it was. *)
Theorem protected_routes_need_active_user (env : Env) (st : Store) (route : Route)
    (req : Request) :
  public route = false →
  x_user_id req = None ∨ x_user_id req = Some ""
  ∨ (∃ h, x_user_id req = Some h ∧ no_active_user st h) →
  (handle env st route req).1 = st ∧ status (handle env st route req).2 = 401.
Proof.
  intros Hroute Hreq. destruct (auth_refused st req Hreq) as (r & Hr & Hs).
  destruct route; try discriminate; cbn [handle];
    unfold as_admin, authenticated; by rewrite Hr.
Qed.

Lemma protected_routes_need_active_user_witness :
  (handle sample_env warehouse DELETE_containers (request "u_ghost" "c9" [])).1
    = warehouse
  ∧ status (handle sample_env warehouse DELETE_containers
              (request "u_ghost" "c9" [])).2 = 401.
Proof.
  apply protected_routes_need_active_user; [reflexivity|].
  right. right. exists "u_ghost". split; [reflexivity|].
  unfold no_active_user. compute_done.
Defined.

(** X2: an authenticated caller whose [isAdmin] is not truthy is
    answered 403 on every user-management route, and the store is left
    as it was. *)
Theorem admin_routes_need_admin (env : Env) (st : Store) (route : Route)
    (req : Request) (user : doc) :
  admin_route route = true →
  authMiddleware st req = inr user →
  truthy (get user "isAdmin") = false →
  handle env st route req = (st, error 403 "Доступ запрещён").
Proof.
  intros Hroute Hauth Hadmin.
  destruct route; try discriminate; cbn [handle];
    unfold as_admin, authenticated, adminOnly; by rewrite Hauth, Hadmin.
Qed.

Lemma admin_routes_need_admin_witness :
  handle sample_env warehouse POST_users_reset (request "u_bob" "u_admin" [])
  = (warehouse, error 403 "Доступ запрещён").
Proof.
  apply (admin_routes_need_admin sample_env warehouse POST_users_reset
           (request "u_bob" "u_admin" []) bob_doc); reflexivity.
Defined.

(** X3: the GET routes and the login never change the store, whoever
    calls them and whatever they answer. *)
Theorem read_only_routes_keep_store (env : Env) (st : Store) (route : Route)
    (req : Request) :
  read_only route = true → (handle env st route req).1 = st.
Proof.
  intros Hroute.
  destruct route; try discriminate; cbn [handle];
    unfold as_admin, authenticated, post_auth_login, get_auth_invite, get_users,
      get_sync, get_containers, get_items, get_categories, get_container_access,
      get_search;
    repeat case_match; done.
Qed.

Lemma read_only_routes_keep_store_witness :
  (handle sample_env warehouse GET_sync (request "u_bob" "" [])).1 = warehouse.
Proof. apply read_only_routes_keep_store. reflexivity. Defined.

(** ** Categories *)

Lemma updateMany_category id (l : list doc) :
  updateMany [("category", VStr id)] {["category" := VNull]} l
  = uncategorised id <$> l.
Proof.
  unfold updateMany. apply list_fmap_ext. intros _ i _. unfold uncategorised.
  destruct (matches [("category", VStr id)] i) eqn:Hm.
  - apply matches_one_str in Hm. rewrite decide_True by done.
    by rewrite insert_union_singleton_l.
  - apply not_matches_str in Hm. by rewrite decide_False.
Qed.

Lemma uncategorised_forgets id (i : doc) :
  get (uncategorised id i) "category" ≠ VStr id.
Proof.
  unfold uncategorised. case_decide; [|done].
  unfold get. by rewrite lookup_insert_eq.
Qed.

(** X4: deleting a category always succeeds; every item that referred
    to it has its [category] set to [null] and is otherwise unchanged,
    all other items are untouched, so no item refers to it afterwards;
    the first category with that id, if any, is removed and the other
    collections are left alone. Both servers do the same. *)
Theorem category_deletion_cascades (env : Env) (st : Store) (req : Request)
    (user : doc) (st0 : NoAuth.Store) :
  authMiddleware st req = inr user →
  let id := param req in
  let r := handle env st DELETE_categories req in
  let r0 := NoAuth.delete_categories st0 req in
  (r.2 = success
   ∧ items r.1 = uncategorised id <$> items st
   ∧ Forall (λ i, get i "category" ≠ VStr id) (items r.1)
   ∧ removed id (categories st) (categories r.1)
   ∧ users r.1 = users st ∧ containers r.1 = containers st
   ∧ containerAccess r.1 = containerAccess st)
  ∧ (r0.2 = success
     ∧ NoAuth.items r0.1 = uncategorised id <$> NoAuth.items st0
     ∧ Forall (λ i, get i "category" ≠ VStr id) (NoAuth.items r0.1)
     ∧ removed id (NoAuth.categories st0) (NoAuth.categories r0.1)
     ∧ NoAuth.containers r0.1 = NoAuth.containers st0).
Proof.
  intros Hauth id r r0. subst r r0. cbn [handle]. unfold authenticated.
  rewrite Hauth. unfold delete_categories, NoAuth.delete_categories. fold id.
  cbn [fst snd items categories users containers containerAccess
       NoAuth.items NoAuth.categories NoAuth.containers].
  rewrite !updateMany_category.
  repeat split; try apply deleteOne_removed;
    apply Forall_fmap, Forall_forall; intros i _; apply uncategorised_forgets.
Qed.

Lemma category_deletion_cascades_witness :
  items (handle sample_env warehouse DELETE_categories (request "u_bob" "cat1" [])).1
  = uncategorised "cat1" <$> items warehouse.
Proof.
  apply (category_deletion_cascades sample_env warehouse
           (request "u_bob" "cat1" []) bob_doc (NoAuth.mkStore [] [] []) eq_refl).
Defined.

#[global] Instance order_ge_total : Total order_ge.
Proof. intros a b. unfold order_ge. destruct (total order_le a b); auto. Qed.

Lemma bson_leb_num a b : bson_leb (VNum a) (VNum b) = true ↔ a ≤ b.
Proof.
  unfold bson_leb. cbn. rewrite orb_true_iff, andb_true_iff, Z.ltb_lt, Z.eqb_eq.
  lia.
Qed.

Lemma sorted_numbers_head m (l : list doc) :
  Sorted order_ge (m :: l) → Forall numbered (m :: l) →
  ∀ nm, get m "order" = VNum nm →
  Forall (λ c, ∃ n, get c "order" = VNum n ∧ n ≤ nm) l.
Proof.
  revert m. induction l as [|c l IH]; intros m Hs Hn nm Hm; [constructor|].
  apply Sorted_inv in Hs as [Hs Hhd]. apply HdRel_inv in Hhd.
  apply Forall_cons in Hn as [_ Hn].
  pose proof Hn as [[nc Hc] _]%Forall_cons.
  unfold order_ge, order_le in Hhd. rewrite Hm, Hc in Hhd.
  apply Is_true_true, bson_leb_num in Hhd.
  constructor; [by exists nc|].
  eapply Forall_impl; [apply (IH c Hs Hn nc Hc)|].
  intros c' (n & Hc' & Hle). exists n. split; [done|lia].
Qed.

(** The document with the largest [order] among numbered categories. *)
Lemma max_order_numbers (cats : list doc) :
  Forall numbered cats →
  (cats = [] ∧ max_order cats = [])
  ∨ ∃ m nm, max_order cats = [m] ∧ m ∈ cats ∧ get m "order" = VNum nm
            ∧ Forall (λ c, ∃ n, get c "order" = VNum n ∧ n ≤ nm) cats.
Proof.
  intros Hn. unfold max_order.
  pose proof (merge_sort_Permutation order_ge cats) as Hp.
  pose proof (Sorted_merge_sort order_ge cats) as Hs.
  destruct (merge_sort order_ge cats) as [|m l] eqn:Hsorted.
  - left. apply Permutation_nil_l in Hp. by subst.
  - right. assert (Forall numbered (m :: l)) as Hn' by by rewrite Hp.
    pose proof Hn' as [[nm Hm] _]%Forall_cons.
    exists m, nm. split; [done|]. split; [rewrite <- Hp; apply list_elem_of_here|].
    split; [done|]. rewrite <- Hp. constructor; [exists nm; split; [done|lia]|].
    by apply (sorted_numbers_head m l).
Qed.


Lemma stored_order o (id name icon order : value) :
  order ≠ VUndef →
  get (to_bson (with_id o (<["id" := id]> (<["name" := name]>
         (<["icon" := icon]> (<["order" := order]> ∅)))))) "order" = order
  ∧ get (with_id o (<["id" := id]> (<["name" := name]>
           (<["icon" := icon]> (<["order" := order]> ∅))))) "order" = order.
Proof.
  intros Hdef.
  assert (get (<["id" := id]> (<["name" := name]>
            (<["icon" := icon]> (<["order" := order]> ∅)))) "order" = order) as Hget.
  { unfold get. by rewrite !lookup_insert_ne, lookup_insert_eq by done. }
  split; [rewrite get_to_bson|]; rewrite get_with_id by done; by rewrite ?Hget.
Qed.

Lemma round_to_double_safe z : - 2 ^ 53 ≤ z ≤ 2 ^ 53 → round_to_double z = z.
Proof.
  intros Hz. unfold round_to_double.
  destruct (Z.ltb_spec (Z.abs z) (2 ^ 53)) as [|Hge]; [done|].
  assert (z = 2 ^ 53 ∨ z = - 2 ^ 53) as [-> | ->] by lia; reflexivity.
Qed.

Example rounds_to_even :
  round_to_double (2 ^ 53 + 1) = 2 ^ 53
  ∧ round_to_double (2 ^ 53 + 2) = 2 ^ 53 + 2
  ∧ round_to_double (2 ^ 53 + 3) = 2 ^ 53 + 4
  ∧ round_to_double (- 2 ^ 53 - 1) = - 2 ^ 53.
Proof. repeat split; reflexivity. Qed.

Lemma safely_numbered_numbered c : safely_numbered c → numbered c.
Proof. intros (n & Hn & _). by exists n. Qed.

(** X5: when the stored categories all have a safe integer as [order]
    (one below 2^53 in magnitude), a new category gets the largest of
    them plus one, and 1 when there is no category yet; so its order is
    above every stored one. *)
Theorem category_creation_order (env : Env) (st : Store) (req : Request)
    (user : doc) :
  authMiddleware st req = inr user →
  Forall safely_numbered (categories st) →
  let r := handle env st POST_categories req in
  ∃ c n, categories r.1 = (categories st ++ [c])%list
         ∧ status r.2 = 201
         ∧ get c "order" = VNum n ∧ get (doc_of r.2) "order" = VNum n
         ∧ Forall (order_below n) (categories st)
         ∧ (categories st = [] → n = 1)
         ∧ (categories st ≠ [] →
            ∃ m, m ∈ categories st ∧ get m "order" = VNum (n - 1)).
Proof.
  intros Hauth Hsafe r. subst r. cbn [handle]. unfold authenticated.
  rewrite Hauth. unfold post_categories, doc_of, insertOne.
  cbn [fst snd payload status categories].
  assert (Forall numbered (categories st)) as Hnum
    by (eapply Forall_impl; [exact Hsafe|apply safely_numbered_numbered]).
  destruct (max_order_numbers (categories st) Hnum)
    as [[Hnil ->]|(m & nm & -> & Hm & Hord & Hmax)].
  - destruct (stored_order (oid env) (VStr ("cat" +:+ pretty (now env)))
                (get (rbody req) "name")
                (js_or (get (rbody req) "icon") (VStr "📁")) (VNum 1))
      as [Hs Hr]; [done|].
    eexists _, 1. split; [reflexivity|]. split; [done|].
    split; [exact Hs|]. split; [exact Hr|]. rewrite Hnil.
    split; [constructor|]. split; done.
  - rewrite Hord. cbn [js_plus_one].
    assert (- 2 ^ 53 < nm < 2 ^ 53) as Hnm.
    { rewrite Forall_forall in Hsafe. destruct (Hsafe m Hm) as (n & Hn & ?).
      rewrite Hord in Hn. by injection Hn as <-. }
    rewrite round_to_double_safe by lia.
    destruct (stored_order (oid env) (VStr ("cat" +:+ pretty (now env)))
                (get (rbody req) "name")
                (js_or (get (rbody req) "icon") (VStr "📁")) (VNum (nm + 1)))
      as [Hs Hr]; [done|].
    eexists _, (nm + 1). split; [reflexivity|]. split; [done|].
    split; [exact Hs|]. split; [exact Hr|].
    split; [|split].
    + eapply Forall_impl; [exact Hmax|]. intros c (n & Hc & Hle).
      exists n. split; [done|lia].
    + intros Hnil. rewrite Hnil in Hm. by apply elem_of_nil in Hm.
    + intros _. exists m. split; [done|]. rewrite Hord. f_equal. lia.
Qed.

Lemma category_creation_order_witness :
  ∃ c n, categories (handle sample_env warehouse POST_categories
                       (request "u_bob" "" [("name", VStr "tools")])).1
           = (categories warehouse ++ [c])%list
         ∧ get c "order" = VNum n
         ∧ Forall (order_below n) (categories warehouse).
Proof.
  destruct (category_creation_order sample_env warehouse
              (request "u_bob" "" [("name", VStr "tools")]) bob_doc eq_refl)
    as (c & n & Hc & _ & Hn & _ & Hbelow & _).
  - unfold safely_numbered. repeat constructor; eexists; (split; [reflexivity|lia]).
  - exists c, n. split; [exact Hc|]. split; [exact Hn|exact Hbelow].
Defined.

(** Beyond the safe integers the sum is rounded: after the order 2^53 a
    new category gets 2^53 again. *)
Example order_after_two_to_53 :
  get (doc_of (handle sample_env crowded POST_categories
                 (request "u_bob" "" [("name", VStr "tools")])).2) "order"
  = VNum (2 ^ 53).
Proof. reflexivity. Qed.

(** ** Items *)

Lemma get_to_bson_present (d : doc) k v :
  d !! k = Some v → get (to_bson d) k = stored_value v.
Proof. intros H. unfold get, to_bson. by rewrite lookup_fmap, H. Qed.

Lemma new_item_fields env b o :
  let stored := to_bson (with_id o (new_item env b)) in
  get stored "id" = VStr ("i" +:+ pretty (now env))
  ∧ get stored "quantity" = stored_value (js_or (get b "quantity") (VNum 1))
  ∧ get stored "container" = stored_value (get b "container").
Proof.
  assert (with_id o (new_item env b) = <["_id" := VOid o]> (new_item env b)) as ->
    by reflexivity.
  repeat split; apply get_to_bson_present; unfold new_item;
    by rewrite !lookup_insert_ne, lookup_insert_eq by done.
Qed.

Lemma deleteOne_snoc_fresh q (l : list doc) d :
  (∀ d', d' ∈ l → matches q d' = false) → matches q d = true →
  deleteOne q (l ++ [d]) = l.
Proof.
  intros Hl Hd. rewrite (deleteOne_first q l d []) by done. apply app_nil_r.
Qed.

Lemma js_or_stored a b : truthy a = true → stored_value (js_or a b) = a.
Proof. intros H. unfold js_or. rewrite H. by destruct a. Qed.

(** X6: POST /items stores the new item last and answers 201; a
    quantity that is missing or falsy, zero included, is stored as 1, a
    missing container as [null], and the container is not looked up.
    When no stored item has the new id, deleting by that id afterwards
    gives back the items as they were. *)
Theorem item_creation_and_removal (env : Env) (st : Store) (req : Request)
    (user : doc) :
  authMiddleware st req = inr user →
  let id := "i" +:+ pretty (now env) in
  let r := handle env st POST_items req in
  let stored := to_bson (doc_of r.2) in
  let quantity := get (rbody req) "quantity" in
  (status r.2 = 201
   ∧ items r.1 = (items st ++ [stored])%list
   ∧ get stored "id" = VStr id
   ∧ (truthy quantity = true → get stored "quantity" = quantity)
   ∧ (truthy quantity = false → get stored "quantity" = VNum 1)
   ∧ get stored "container" = stored_value (get (rbody req) "container")
   ∧ users r.1 = users st ∧ containers r.1 = containers st
   ∧ categories r.1 = categories st ∧ containerAccess r.1 = containerAccess st)
  ∧ (Forall (λ i, get i "id" ≠ VStr id) (items st) →
     (handle env r.1 DELETE_items
        (mkRequest (x_user_id req) id None ∅)).1 = st).
Proof.
  intros Hauth id r stored quantity. subst r stored quantity.
  cbn [handle]. unfold authenticated. rewrite Hauth.
  unfold post_items, doc_of, insertOne.
  cbn [fst snd payload status items users containers categories containerAccess].
  destruct (new_item_fields env (rbody req) (oid env)) as (Hid & Hq & Hc).
  split.
  - repeat split; try done.
    + intros Ht. by rewrite Hq, js_or_stored.
    + intros Hf. rewrite Hq. unfold js_or. by rewrite Hf.
  - intros Hfresh. rewrite Forall_forall in Hfresh.
    assert (authMiddleware
              (mkStore (users st) (containers st)
                 (items st ++ [to_bson (with_id (oid env) (new_item env (rbody req)))])
                 (categories st) (containerAccess st))
              (mkRequest (x_user_id req) id None ∅) = inr user) as ->
      by exact Hauth.
    unfold delete_items.
    cbn [fst param items users containers categories containerAccess].
    rewrite deleteOne_snoc_fresh; [by destruct st| |by apply matches_one_str].
    intros i Hi. by apply not_matches_str, Hfresh.
Qed.

Lemma item_creation_and_removal_witness :
  (handle sample_env
     (handle sample_env warehouse POST_items
        (request "u_bob" "" [("name", VStr "nail"); ("quantity", VNum 0);
                             ("container", VStr "c2")])).1
     DELETE_items (mkRequest (Some "u_bob") "i1700000000000" None ∅)).1
  = warehouse.
Proof.
  apply (item_creation_and_removal sample_env warehouse
           (request "u_bob" "" [("name", VStr "nail"); ("quantity", VNum 0);
                                ("container", VStr "c2")]) bob_doc eq_refl).
  compute_done.
Defined.

Example zero_quantity_is_stored_as_one :
  (λ i, get i "quantity")
    <$> last (items (handle sample_env warehouse POST_items
                       (request "u_bob" "" [("name", VStr "nail");
                                            ("quantity", VNum 0);
                                            ("container", VStr "c2")])).1)
  = Some (VNum 1).
Proof. by vm_compute. Qed.

(** X7: DELETE /items/:id always answers success; it removes the first
    item with that id and nothing else, and changes nothing when no item
    has the id. Both servers do the same. *)
Theorem item_deletion_is_silent (env : Env) (st : Store) (req : Request)
    (user : doc) (st0 : NoAuth.Store) :
  authMiddleware st req = inr user →
  let r := handle env st DELETE_items req in
  let r0 := NoAuth.delete_items st0 req in
  (r.2 = success ∧ removed (param req) (items st) (items r.1)
   ∧ users r.1 = users st ∧ containers r.1 = containers st
   ∧ categories r.1 = categories st ∧ containerAccess r.1 = containerAccess st)
  ∧ (r0.2 = success
     ∧ removed (param req) (NoAuth.items st0) (NoAuth.items r0.1)
     ∧ NoAuth.containers r0.1 = NoAuth.containers st0
     ∧ NoAuth.categories r0.1 = NoAuth.categories st0).
Proof.
  intros Hauth r r0. subst r r0. cbn [handle]. unfold authenticated.
  rewrite Hauth. unfold delete_items, NoAuth.delete_items.
  repeat split; apply deleteOne_removed.
Qed.

Lemma item_deletion_is_silent_witness :
  (handle sample_env warehouse DELETE_items (request "u_bob" "i404" [])).2 = success
  ∧ removed "i404" (items warehouse)
      (items (handle sample_env warehouse DELETE_items (request "u_bob" "i404" [])).1).
Proof.
  destruct (item_deletion_is_silent sample_env warehouse (request "u_bob" "i404" [])
              bob_doc (NoAuth.mkStore [] [] []) eq_refl) as [(H1 & H2 & _) _].
  split; [exact H1|exact H2].
Defined.

(** ** Deleting a user *)

(** X8: an administrator cannot delete the own account (400, nothing
    changes); deleting another id answers success, removes the first user
    with that id, if any, and every ContainerAccess row of that user id,
    keeps the caller among the users and leaves containers, items and
    categories alone. *)
Theorem user_deletion (env : Env) (st : Store) (req : Request) (user : doc) :
  authMiddleware st req = inr user →
  truthy (get user "isAdmin") = true →
  let id := param req in
  let r := handle env st DELETE_users req in
  (get user "id" = VStr id → r = (st, error 400 "Нельзя удалить самого себя"))
  ∧ (get user "id" ≠ VStr id →
     r.2 = success
     ∧ removed id (users st) (users r.1)
     ∧ user ∈ users r.1
     ∧ containerAccess r.1 = filter (λ a, get a "userId" ≠ VStr id) (containerAccess st)
     ∧ containers r.1 = containers st ∧ items r.1 = items st
     ∧ categories r.1 = categories st).
Proof.
  intros Hauth Hadmin id r. subst r. cbn [handle].
  unfold as_admin, authenticated, adminOnly. rewrite Hauth, Hadmin. cbn [negb].
  unfold delete_users. fold id. split.
  - intros ->. unfold strict_eq. by rewrite bool_decide_eq_true_2.
  - intros Hne. rewrite strict_eq_false by congruence.
    cbn [fst snd users containers items categories containerAccess].
    destruct (auth_user _ _ _ Hauth) as (_ & _ & _ & Hin & _).
    repeat split; try done.
    + apply deleteOne_removed.
    + apply elem_of_deleteOne; [done|]. by apply not_matches_str.
    + apply deleteMany_filter.
Qed.

Lemma user_deletion_witness :
  handle sample_env warehouse DELETE_users (request "u_admin" "u_admin" [])
  = (warehouse, error 400 "Нельзя удалить самого себя")
  ∧ containerAccess (handle sample_env warehouse DELETE_users
                       (request "u_admin" "u_bob" [])).1 = [].
Proof.
  destruct (user_deletion sample_env warehouse (request "u_admin" "u_admin" [])
              admin_doc eq_refl eq_refl) as [Hself _].
  destruct (user_deletion sample_env warehouse (request "u_admin" "u_bob" [])
              admin_doc eq_refl eq_refl) as [_ Hother].
  split; [by apply Hself|].
  destruct Hother as (_ & _ & _ & -> & _); [discriminate|reflexivity].
Defined.

(** ** Granting and revoking access *)

Lemma matches_truthy k v (d : doc) :
  truthy v = true → matches [(k, v)] d = true ↔ get d k = v.
Proof.
  intros Hv. unfold matches. cbn [forallb]. rewrite andb_true_r.
  rewrite truthy_query_field, bool_decide_eq_true by done.
  apply lookup_get. by apply truthy_defined.
Qed.

Lemma matches_pair k1 v1 k2 v2 (d : doc) :
  truthy v1 = true → truthy v2 = true →
  matches [(k1, v1); (k2, v2)] d = true ↔ get d k1 = v1 ∧ get d k2 = v2.
Proof.
  intros H1 H2. unfold matches. cbn [forallb].
  rewrite andb_true_r, andb_true_iff, !truthy_query_field, !bool_decide_eq_true by done.
  rewrite !lookup_get by by apply truthy_defined. done.
Qed.

Lemma access_guard_None st user req :
  access_guard st user req = None ↔
  truthy (get (rbody req) "containerId") = true
  ∧ truthy (get (rbody req) "userId") = true
  ∧ ∃ c, findOne [("id", get (rbody req) "containerId")] (containers st) = Some c
         ∧ may_manage user c.
Proof.
  unfold access_guard, may_manage.
  destruct (truthy (get (rbody req) "containerId")); cbn [negb orb];
    [|split; [done|by intros [? _]]].
  destruct (truthy (get (rbody req) "userId")); cbn [negb orb];
    [|split; [done|by intros (_ & ? & _)]].
  destruct (findOne _ _) as [c|]; [|split; [done|by intros (_ & _ & ? & ? & _)]].
  destruct (strict_eq (get c "ownerId") (get user "id")) eqn:Hown,
    (truthy (get user "isAdmin")) eqn:Hadm; cbn [negb andb]; split; try done.
  - intros _. split; [done|]. split; [done|]. exists c. split; [done|]. by left.
  - intros _. split; [done|]. split; [done|]. exists c. split; [done|]. by left.
  - intros _. split; [done|]. split; [done|]. exists c. split; [done|]. by right.
  - intros (_ & _ & c' & [= <-] & [?|?]); congruence.
Qed.

(** X9: for a [containerId] that is sent as a string, granting and
    revoking access are refused, with the store left as it was: 400 when
    [containerId] or [userId] is missing or empty, 404 when no container
    has that id, and 403 when the caller neither owns the first container
    with that id nor is an administrator. *)
Theorem access_management_guarded (env : Env) (st : Store) (route : Route)
    (req : Request) (user : doc) :
  route = POST_container_access ∨ route = DELETE_container_access →
  authMiddleware st req = inr user →
  let containerId := get (rbody req) "containerId" in
  let userId := get (rbody req) "userId" in
  let r := handle env st route req in
  (truthy containerId = false ∨ truthy userId = false →
   r = (st, error 400 "containerId и userId обязательны"))
  ∧ (∀ s, containerId = VStr s → s ≠ "" → truthy userId = true →
       (Forall (λ c, get c "id" ≠ VStr s) (containers st) →
        r = (st, error 404 "Контейнер не найден"))
       ∧ (∀ l1 c l2,
            containers st = (l1 ++ c :: l2)%list → get c "id" = VStr s →
            Forall (λ c', get c' "id" ≠ VStr s) l1 →
            ¬ may_manage user c →
            r = (st, error 403 "Только владелец может управлять доступом"))).
Proof.
  intros Hroute Hauth containerId userId r. subst r containerId userId.
  assert (handle env st route req
          = match access_guard st user req with
            | Some r => (st, r)
            | None => handle env st route req
            end) as Hguard.
  { destruct Hroute as [-> | ->]; cbn [handle]; unfold authenticated;
      rewrite Hauth; unfold post_container_access, delete_container_access;
      by destruct (access_guard st user req). }
  rewrite Hguard. unfold access_guard, may_manage. split.
  - intros [-> | ->]; [done|]. by destruct (truthy _).
  - intros s -> Hs ->.
    assert (truthy (VStr s) = true) as ->
      by (cbn; by destruct (String.eqb_spec s "")).
    cbn [negb orb]. split.
    + intros Hnone. rewrite (proj2 (findOne_None _ _)); [done|].
      rewrite Forall_forall in Hnone. intros d Hd.
      by apply not_matches_str, Hnone.
    + intros l1 c l2 -> Hc Hl1 Hno. rewrite Forall_forall in Hl1.
      rewrite (findOne_first _ l1 c l2);
        [|intros d Hd; by apply not_matches_str, Hl1|by apply matches_one_str].
      destruct (strict_eq _ _), (truthy (get user "isAdmin")); cbn [negb andb];
        try done; exfalso; apply Hno; auto.
Qed.

Lemma access_management_guarded_witness :
  handle sample_env depot POST_container_access
    (request "u_bob" "" [("containerId", VStr "c9"); ("userId", VStr "u_bob")])
  = (depot, error 403 "Только владелец может управлять доступом").
Proof.
  destruct (access_management_guarded sample_env depot POST_container_access
              (request "u_bob" "" [("containerId", VStr "c9"); ("userId", VStr "u_bob")])
              bob_doc (or_introl eq_refl) eq_refl) as (_ & Hstring).
  destruct (Hstring "c9") as [_ Hforbidden]; [reflexivity|discriminate|reflexivity|].
  apply (Hforbidden [container_doc "c1" VNull "u_admin";
                     container_doc "c2" (VStr "c1") "u_admin"]
           (container_doc "c9" VNull "u_admin")
           [container_doc "c3" VNull "u_bob"]).
  - reflexivity.
  - reflexivity.
  - repeat constructor; discriminate.
  - intros [H|H]; discriminate.
Defined.

Lemma stored_row o (cid uid : value) :
  cid ≠ VUndef → uid ≠ VUndef →
  get (to_bson (with_id o (<["containerId" := cid]> (<["userId" := uid]> ∅))))
    "containerId" = cid
  ∧ get (to_bson (with_id o (<["containerId" := cid]> (<["userId" := uid]> ∅))))
      "userId" = uid.
Proof.
  intros Hc Hu.
  assert (get (<["containerId" := cid]> (<["userId" := uid]> (∅ : doc))) "containerId"
          = cid) as H1 by (unfold get; by rewrite lookup_insert_eq).
  assert (get (<["containerId" := cid]> (<["userId" := uid]> (∅ : doc))) "userId"
          = uid) as H2
    by (unfold get; by rewrite lookup_insert_ne, lookup_insert_eq by done).
  split; rewrite get_to_bson; rewrite get_with_id by done; congruence.
Qed.

(** What a request does to the access rows. *)
Lemma handle_access env st route req :
  let st' := (handle env st route req).1 in
  containerAccess st' = containerAccess st
  ∨ (route = POST_container_access
     ∧ ∃ user c row,
         authMiddleware st req = inr user
         ∧ truthy (get (rbody req) "containerId") = true
         ∧ truthy (get (rbody req) "userId") = true
         ∧ findOne [("id", get (rbody req) "containerId")] (containers st) = Some c
         ∧ may_manage user c
         ∧ findOne [("containerId", get (rbody req) "containerId");
                    ("userId", get (rbody req) "userId")] (containerAccess st) = None
         ∧ get row "containerId" = get (rbody req) "containerId"
         ∧ get row "userId" = get (rbody req) "userId"
         ∧ containerAccess st' = (containerAccess st ++ [row])%list
         ∧ containers st' = containers st
         ∧ status (handle env st route req).2 = 201)
  ∨ (route ≠ POST_container_access
     ∧ containerAccess st' `sublist_of` containerAccess st).
Proof.
  destruct route; cbn [handle];
    unfold as_admin, authenticated, post_auth_login, post_auth_activate,
      get_auth_invite, get_users, post_users, delete_users, post_users_reset,
      get_sync, get_containers, post_containers, put_containers, delete_containers,
      get_items, post_items, put_items, delete_items, get_categories,
      post_categories, put_categories, delete_categories, post_container_access,
      delete_container_access, get_container_access, get_search;
    repeat case_match; cbn [fst snd containers containerAccess status];
    first
      [ by left
      | right; right; split;
          [done|first [apply deleteOne_sublist|apply deleteMany_sublist]]
      | idtac ].
  match goal with H : access_guard _ _ _ = None |- _ =>
    apply access_guard_None in H as (Hcid & Huid & c & Hc & Hmay) end.
  right. left. split; [done|].
  exists g, c,
    (to_bson (with_id (oid env)
       (<["containerId" := get (rbody req) "containerId"]>
          (<["userId" := get (rbody req) "userId"]> ∅)))).
  destruct (stored_row (oid env) (get (rbody req) "containerId")
              (get (rbody req) "userId")) as [Hrc Hru];
    [by apply truthy_defined..|].
  repeat split; done.
Qed.

(** X10: no request makes the access rows name a pair of container and
    user twice: granting refuses a pair that is already there, and all
    other routes only remove rows. *)
Theorem grants_stay_unique (env : Env) (st : Store) (route : Route)
    (req : Request) :
  unique_grants st → unique_grants (handle env st route req).1.
Proof.
  unfold unique_grants, grants. intros Hnd.
  destruct (handle_access env st route req)
    as [->|[(_ & user & c & row & _ & Hcid & Huid & _ & _ & Hnew & Hrc & Hru & -> & _)
           |[_ Hsub]]].
  - done.
  - rewrite fmap_app. apply NoDup_app. split; [done|]. split; [|apply NoDup_singleton].
    intros p Hp ->%list_elem_of_singleton.
    apply list_elem_of_fmap in Hp as (a & [= Ha1 Ha2] & Ha).
    assert (matches [("containerId", get (rbody req) "containerId");
                     ("userId", get (rbody req) "userId")] a = true) as Hm
      by (apply matches_pair; [done|done|]; split; congruence).
    by rewrite (proj1 (findOne_None _ _) Hnew a Ha) in Hm.
  - eapply sublist_NoDup; [exact Hnd|by apply fmap_sublist].
Qed.

Lemma grants_stay_unique_witness :
  unique_grants (handle sample_env depot POST_container_access
                   (request "u_admin" "" [("containerId", VStr "c9");
                                          ("userId", VStr "u_bob")])).1.
Proof.
  apply grants_stay_unique. unfold unique_grants. compute_done.
Defined.

Lemma granted_sees depth st u cid S :
  granted st u cid →
  getAccessibleContainerIds depth st (VStr u) = Some S →
  cid ∈ S ∧ ∀ x, descendant (containers st) cid x → x ∈ S.
Proof.
  intros Hg HS. split.
  - apply (accessible_elem depth st u S HS). left. by right.
  - intros x Hx. apply (accessible_elem depth st u S HS). right.
    exists cid. split; [by right|done].
Qed.

Lemma auth_status st req r : authMiddleware st req = inl r → status r = 401.
Proof.
  unfold authMiddleware. repeat case_match; intros [= <-]; done.
Qed.

Lemma guard_status st user req r :
  access_guard st user req = Some r → status r ≠ 201.
Proof.
  unfold access_guard. repeat case_match; intros [= <-]; done.
Qed.

(** A grant is answered 201 only when it stores a row. *)
Lemma grant_answered_201 env st req :
  status (handle env st POST_container_access req).2 = 201 →
  ∃ user, authMiddleware st req = inr user
          ∧ access_guard st user req = None
          ∧ (handle env st POST_container_access req).1
            = mkStore (users st) (containers st) (items st) (categories st)
                (containerAccess st ++
                 [to_bson (with_id (oid env)
                    (<["containerId" := get (rbody req) "containerId"]>
                       (<["userId" := get (rbody req) "userId"]> ∅)))]).
Proof.
  cbn [handle]. unfold authenticated.
  destruct (authMiddleware st req) as [r|user] eqn:Hauth.
  { apply auth_status in Hauth. cbn [snd]. congruence. }
  unfold post_container_access.
  destruct (access_guard st user req) as [r|] eqn:Hguard.
  { apply guard_status in Hguard. cbn [snd]. congruence. }
  destruct (findOne _ (containerAccess st)); cbn [fst snd status]; [done|].
  intros _. by exists user.
Qed.

(** X11: after a grant that is answered 201, whenever the resolver
    returns a set for the grantee it holds the granted container and all
    its descendants, so the grantee's sync shows them. *)
Theorem grant_gives_visibility (env : Env) (st : Store) (req : Request)
    (u : string) :
  get (rbody req) "userId" = VStr u →
  status (handle env st POST_container_access req).2 = 201 →
  let st' := (handle env st POST_container_access req).1 in
  let cid := get (rbody req) "containerId" in
  (∃ c, c ∈ containers st' ∧ get c "id" = cid)
  ∧ granted st' u cid
  ∧ ∀ depth S, getAccessibleContainerIds depth st' (VStr u) = Some S →
               cid ∈ S ∧ ∀ x, descendant (containers st') cid x → x ∈ S.
Proof.
  intros Hu Hstatus st' cid. subst st' cid.
  assert (∃ c row, findOne [("id", get (rbody req) "containerId")] (containers st)
                     = Some c
                   ∧ truthy (get (rbody req) "containerId") = true
                   ∧ get row "containerId" = get (rbody req) "containerId"
                   ∧ get row "userId" = get (rbody req) "userId"
                   ∧ containerAccess (handle env st POST_container_access req).1
                     = (containerAccess st ++ [row])%list
                   ∧ containers (handle env st POST_container_access req).1
                     = containers st) as (c & row & Hc & Hcid & Hrc & Hru & Hacc & Hcs).
  { destruct (grant_answered_201 env st req Hstatus) as (user & _ & Hguard & ->).
    apply access_guard_None in Hguard as (Hcid & Huid & c & Hc & _).
    destruct (stored_row (oid env) (get (rbody req) "containerId")
                (get (rbody req) "userId")) as [Hrc Hru];
      [by apply truthy_defined..|].
    by eexists c, _. }
  assert (granted (handle env st POST_container_access req).1 u
            (get (rbody req) "containerId")) as Hg.
  { exists row. rewrite Hacc. split; [apply elem_of_app; right; apply list_elem_of_here|].
    split; congruence. }
  split; [|split; [exact Hg|]].
  - apply findOne_Some in Hc as [Hin Hm]. exists c. rewrite Hcs. split; [done|].
    by apply matches_truthy in Hm.
  - intros depth S HS. by apply (granted_sees depth _ u).
Qed.

Lemma grant_gives_visibility_witness :
  granted (handle sample_env depot POST_container_access
             (request "u_admin" "" [("containerId", VStr "c9");
                                    ("userId", VStr "u_bob")])).1
          "u_bob" (VStr "c9").
Proof.
  apply (grant_gives_visibility sample_env depot
           (request "u_admin" "" [("containerId", VStr "c9"); ("userId", VStr "u_bob")])
           "u_bob"); reflexivity.
Defined.




(** ** From invitation to login *)

Lemma query_field_defined (d : doc) k v :
  v ≠ VNull → v ≠ VUndef → field_matches d (k, v) = bool_decide (d !! k = Some v).
Proof. by destruct v. Qed.

Lemma matches_two k1 v1 k2 v2 (d : doc) :
  v1 ≠ VNull → v1 ≠ VUndef → v2 ≠ VNull → v2 ≠ VUndef →
  matches [(k1, v1); (k2, v2)] d = true ↔ d !! k1 = Some v1 ∧ d !! k2 = Some v2.
Proof.
  intros. unfold matches. cbn [forallb].
  rewrite andb_true_r, andb_true_iff, !query_field_defined, !bool_decide_eq_true by done.
  done.
Qed.

Lemma truthy_not_null v : truthy v = true → v ≠ VNull ∧ v ≠ VUndef.
Proof. by destruct v. Qed.

(** The document POST /users stores. *)
Lemma stored_user_fields env (name isAdmin : value) :
  stored_user env name isAdmin !! "id" = Some (VStr ("u" +:+ pretty (now env)))
  ∧ stored_user env name isAdmin !! "name" = Some (stored_value name)
  ∧ stored_user env name isAdmin !! "code" = Some VNull
  ∧ stored_user env name isAdmin !! "isActive" = Some (VBool false)
  ∧ stored_user env name isAdmin !! "inviteToken" = Some (VStr (token env))
  ∧ stored_user env name isAdmin !! "inviteExpires"
    = Some (VDate (now env + week)).
Proof.
  unfold stored_user, to_bson, invited_user.
  assert (∀ d : doc, d !! "_id" = None →
            with_id (oid env) d = <["_id" := VOid (oid env)]> d) as Hid
    by (intros d Hd; unfold with_id; by rewrite Hd).
  rewrite Hid by (by rewrite !lookup_insert_ne, lookup_empty by done).
  repeat split; rewrite lookup_fmap;
    by rewrite !lookup_insert_ne, lookup_insert_eq by done.
Qed.





(** ** Login *)

(** X14: a login never changes the store, and without a truthy code it
    is answered 400. For a code that is sent as a string: when no active
    user has it the answer is 401 "wrong code", whether an inactive user
    has it or nobody; and a login that is answered 200 returns, without
    its code, the first active user with that code. *)
Theorem login_needs_active_holder (env : Env) (st : Store) (req : Request) :
  let code := get (rbody req) "code" in
  let r := handle env st POST_auth_login req in
  r.1 = st
  ∧ (truthy code = false → r.2 = error 400 "Введите код")
  ∧ (∀ s, code = VStr s → s ≠ "" →
       (Forall (λ u, ¬ (get u "code" = VStr s ∧ get u "isActive" = VBool true))
               (users st) →
        r.2 = error 401 "Неверный код")
       ∧ (status r.2 = 200 →
          ∃ u, u ∈ users st ∧ get u "code" = VStr s
               ∧ get u "isActive" = VBool true
               ∧ findOne [("code", VStr s); ("isActive", VBool true)] (users st)
                 = Some u
               ∧ docs_of (payload r.2) = [delete "_id" (rest_without ["code"] u)])).
Proof.
  intros code r. subst r. cbn [handle]. unfold post_auth_login. fold code.
  split; [|split].
  - destruct (negb (truthy code)); [done|]. by destruct (findOne _ _).
  - by intros ->.
  - intros s Hcode Hs. rewrite Hcode.
    assert (truthy (VStr s) = true) as ->
      by (cbn; by destruct (String.eqb_spec s "")).
    cbn [negb].
    destruct (findOne _ (users st)) as [u|] eqn:Hfind; cbn [fst snd status].
    + apply findOne_Some in Hfind as [Hin Hm].
      apply matches_two in Hm as [Hc Hact]; try done.
      apply get_Some in Hc, Hact. split.
      * intros Hnone. rewrite Forall_forall in Hnone. by destruct (Hnone u Hin).
      * intros _. exists u. by repeat split.
    + split; done.
Qed.

Lemma login_needs_active_holder_witness :
  (handle sample_env invited POST_auth_login (login_request (VStr "9999"))).2
  = error 401 "Неверный код".
Proof.
  destruct (login_needs_active_holder sample_env invited (login_request (VStr "9999")))
    as (_ & _ & Hstring).
  destruct (Hstring "9999") as [Hwrong _]; [reflexivity|discriminate|].
  apply Hwrong. compute_done.
Defined.

(** ** Resetting a user *)

Lemma invitation_lookup env (u : doc) :
  (invitation env ∪ u) !! "code" = Some VNull
  ∧ (invitation env ∪ u) !! "isActive" = Some (VBool false)
  ∧ (invitation env ∪ u) !! "inviteToken" = Some (VStr (token env))
  ∧ (invitation env ∪ u) !! "inviteExpires" = Some (VDate (now env + week))
  ∧ ∀ k, k ∉ ["code"; "isActive"; "inviteToken"; "inviteExpires"] →
         (invitation env ∪ u) !! k = u !! k.
Proof.
  repeat split; try (rewrite lookup_set; reflexivity).
  intros k Hk. rewrite lookup_set. unfold invitation.
  rewrite !lookup_insert_ne, lookup_empty; [done|..];
    intros <-; apply Hk; compute_done.
Qed.

(** X15: resetting the one user with the given id withdraws that user's
    credentials: the user becomes inactive with a fresh token and expiry
    and no code, the code the user had no longer logs anyone in (given
    no other active user had it), and the user's id no longer passes
    [authMiddleware]. *)
Theorem reset_withdraws_credentials (env env' : Env) (st : Store) (req : Request)
    (admin u : doc) (code : value) :
  authMiddleware st req = inr admin →
  truthy (get admin "isAdmin") = true →
  find [("id", VStr (param req))] (users st) = [u] →
  truthy code = true →
  find [("code", code); ("isActive", VBool true)] (users st) = [u] →
  let r := handle env st POST_users_reset req in
  let u' := invitation env ∪ u in
  r.2 = mkResponse 200 (BObj [("inviteToken", FVal (VStr (token env)))])
  ∧ (∃ l1 l2, users st = (l1 ++ u :: l2)%list ∧ users r.1 = (l1 ++ u' :: l2)%list)
  ∧ (u' !! "code" = Some VNull ∧ u' !! "isActive" = Some (VBool false)
     ∧ u' !! "inviteToken" = Some (VStr (token env))
     ∧ u' !! "inviteExpires" = Some (VDate (now env + week)))
  ∧ (handle env' r.1 POST_auth_login (login_request code)).2
    = error 401 "Неверный код"
  ∧ ∃ resp, authMiddleware r.1 (request_as (param req)) = inl resp
            ∧ status resp = 401.
Proof.
  intros Hauth Hadmin Hid Hc Hcode r u'. subst r u'.
  assert (handle env st POST_users_reset req = post_users_reset env st req) as ->.
  { cbn [handle]. unfold as_admin, authenticated, adminOnly.
    by rewrite Hauth, Hadmin. }
  unfold post_users_reset. cbn [fst snd].
  destruct (find_singleton_split _ _ _ Hid) as (l1 & l2 & Hl & Hid1 & Hid2 & Hmu).
  destruct (invitation_lookup env u) as (Hucode & Huact & Hutok & Huexp & Hurest).
  rewrite Hl, updateOne_first by (by apply find_nil_all || done).
  assert (matches [("code", code); ("isActive", VBool true)] u = true) as Hmc.
  { assert (u ∈ find [("code", code); ("isActive", VBool true)] (users st)) as Hin
      by (rewrite Hcode; apply list_elem_of_here).
    by apply elem_of_filter_bool in Hin as [_ ?]. }
  rewrite Hl in Hcode. destruct (find_middle _ _ _ _ _ Hcode Hmc) as [Hc1 Hc2].
  destruct (truthy_not_null _ Hc) as [Hn Hud].
  split; [done|]. split; [by exists l1, l2|]. split; [done|]. split.
  - cbn [handle]. unfold post_auth_login, login_request. cbn [rbody users].
    assert (get ({["code" := code]} : doc) "code" = code) as ->
      by (unfold get; by rewrite lookup_singleton_eq).
    rewrite Hc. cbn [negb].
    rewrite (proj2 (findOne_nil _ _)); [done|].
    rewrite find_app, find_cons, Hc1, Hc2.
    destruct (matches _ (invitation env ∪ u)) eqn:Hm; [|done].
    apply matches_two in Hm as [_ Hm]; try done. congruence.
  - unfold authMiddleware, request_as. cbn [x_user_id users].
    destruct (String.eqb (param req) ""); [by eexists|].
    rewrite (proj2 (findOne_nil _ _)); [by eexists|].
    assert (∀ l, find [("id", VStr (param req))] l = [] →
                 find [("id", VStr (param req)); ("isActive", VBool true)] l = [])
      as Hweak.
    { intros l Hnil. apply find_nil_iff. intros d Hd.
      destruct (matches _ d) eqn:Hm; [|done].
      apply matches_two in Hm as [Hm _]; try done.
      apply lookup_str, matches_one_str in Hm.
      by rewrite (find_nil_all _ _ Hnil d Hd) in Hm. }
    rewrite find_app, find_cons, (Hweak l1 Hid1), (Hweak l2 Hid2).
    destruct (matches _ (invitation env ∪ u)) eqn:Hm; [|done].
    apply matches_two in Hm as [_ Hm]; try done. congruence.
Qed.

Lemma reset_withdraws_credentials_witness :
  (handle later_env
     (handle sample_env warehouse POST_users_reset (request "u_admin" "u_bob" [])).1
     POST_auth_login (login_request (VStr "1234"))).2
  = error 401 "Неверный код".
Proof.
  apply (reset_withdraws_credentials sample_env later_env warehouse
           (request "u_admin" "u_bob" []) admin_doc bob_doc (VStr "1234"));
    reflexivity.
Defined.

(** ** The resolver and the stack *)

Lemma forEach_mono {A B} (f g : B → A → option B) (l : list A) :
  (∀ a x b, f a x = Some b → g a x = Some b) →
  ∀ a r, forEach f l a = Some r → forEach g l a = Some r.
Proof.
  intros Hfg. induction l as [|x l IH]; intros a r; cbn [forEach]; [done|].
  destruct (f a x) as [b|] eqn:Hf; [|discriminate].
  rewrite (Hfg _ _ _ Hf). apply IH.
Qed.

Lemma addChildren_deeper cs depth : ∀ p acc r,
  addChildren depth cs p acc = Some r → addChildren (S depth) cs p acc = Some r.
Proof.
  induction depth as [|depth IH]; intros p acc r; [discriminate|].
  cbn [addChildren]. apply forEach_mono. intros a child b. apply IH.
Qed.

Lemma addChildren_any_deeper cs depth depth' p acc r :
  (depth ≤ depth')%nat →
  addChildren depth cs p acc = Some r → addChildren depth' cs p acc = Some r.
Proof.
  induction 1 as [|depth' _ IH]; [done|].
  intros H. by apply addChildren_deeper, IH.
Qed.

(** X16: the set [getAccessibleContainerIds] returns does not depend on
    how deep the stack is: a call that returns with some depth returns
    the same set with every larger depth. *)
Theorem stack_depth_irrelevant (st : Store) (userId : value) (depth depth' : nat)
    (S : list value) :
  getAccessibleContainerIds depth st userId = Some S →
  (depth ≤ depth')%nat →
  getAccessibleContainerIds depth' st userId = Some S.
Proof.
  rewrite !getAccessibleContainerIds_unfold. intros HS Hle. revert HS.
  apply forEach_mono. intros a x b. by apply addChildren_any_deeper.
Qed.

Lemma stack_depth_irrelevant_witness :
  getAccessibleContainerIds 1000 warehouse (VStr "u_bob")
  = Some [VStr "c1"; VStr "c2"].
Proof.
  apply (stack_depth_irrelevant warehouse (VStr "u_bob") 3 1000);
    [by vm_compute|lia].
Defined.

(** ** Sync and the container listing *)

Lemma sublist_filter_bool {A} (f : A → bool) (l : list A) :
  List.filter f l `sublist_of` l.
Proof.
  induction l as [|x l IH]; [done|]. cbn [List.filter].
  destruct (f x); [by apply sublist_skip|by apply sublist_cons].
Qed.

Lemma auth_error st req r :
  authMiddleware st req = inl r → ∃ msg, r = error 401 msg.
Proof.
  unfold authMiddleware. repeat case_match; intros [= <-]; by eexists.
Qed.

(** X17: for every caller GET /containers answers with the status of
    GET /sync and with exactly the containers that sync shows. *)
Theorem sync_and_listing_agree (env : Env) (st : Store) (req : Request) :
  docs_under "containers" (handle env st GET_sync req).2
  = docs_of (payload (handle env st GET_containers req).2)
  ∧ status (handle env st GET_sync req).2
    = status (handle env st GET_containers req).2.
Proof.
  cbn [handle]. unfold authenticated.
  destruct (authMiddleware st req) as [r|user] eqn:Hauth.
  { apply auth_error in Hauth as [msg ->]. by split. }
  unfold get_sync, get_containers.
  destruct (truthy (get user "isAdmin")).
  - split; [|done]. cbn. by rewrite app_nil_r.
  - destruct (getAccessibleContainerIds _ _ _); [|by split].
    split; [|done]. cbn. by rewrite app_nil_r.
Qed.

(** X18: the sync of a caller who is no administrator is closed: every
    item it shows sits in a container it shows, and it shows only stored
    items and containers, in stored order. *)
Theorem sync_shows_items_of_shown_containers (env : Env) (st : Store)
    (req : Request) (user : doc) :
  authMiddleware st req = inr user →
  truthy (get user "isAdmin") = false →
  let r := (handle env st GET_sync req).2 in
  Forall (λ i, ∃ c, c ∈ docs_under "containers" r
                    ∧ get c "id" = get i "container")
         (docs_under "items" r)
  ∧ docs_under "items" r `sublist_of` items st
  ∧ docs_under "containers" r `sublist_of` containers st.
Proof.
  intros Hauth Hadmin r. subst r. cbn [handle]. unfold authenticated.
  rewrite Hauth. unfold get_sync. rewrite Hadmin.
  destruct (getAccessibleContainerIds _ _ _) as [S|].
  - cbn. rewrite !app_nil_r. split; [|split].
    + apply Forall_forall. intros i Hi.
      apply elem_of_filter_bool in Hi as [_ Hhas].
      apply Set_has_elem, elem_of_Set_of, list_elem_of_fmap in Hhas
        as (c & Hid & Hc). eauto.
    + apply sublist_filter_bool.
    + apply sublist_filter_bool.
  - cbn. split; [constructor|]. split; apply sublist_nil_l.
Qed.

Lemma sync_shows_items_of_shown_containers_witness :
  docs_under "items" (handle sample_env warehouse GET_sync (request "u_bob" "" [])).2
    `sublist_of` items warehouse.
Proof.
  apply (sync_shows_items_of_shown_containers sample_env warehouse
           (request "u_bob" "" []) bob_doc); reflexivity.
Defined.

(** ** Start-up *)

Lemma find_all (l : list doc) : find [] l = l.
Proof.
  unfold find. induction l as [|d l IH]; [done|]. cbn. by rewrite IH.
Qed.

Lemma seeded_categories oids (l : list doc) :
  insertMany oids default_categories l ≠ [].
Proof. unfold insertMany. by destruct l. Qed.

Lemma seeded_user o d (l : list doc) : insertOne o d l ≠ [].
Proof. unfold insertOne. by destruct l. Qed.

Lemma not_empty (l : list doc) : l ≠ [] → (length l =? 0)%nat = false.
Proof. by destruct l. Qed.

(** X19: [connectDB] seeds an empty category collection with the five
    default categories and an empty user collection with the default
    administrator, keeps every collection that has a document as it is,
    and a second start-up changes nothing. The earlier server's
    [connectDB] is idempotent as well. *)
Theorem connectDB_seeds_once (oids oids' : nat → string) (st : Store)
    (old : NoAuth.Store) :
  let st' := connectDB oids st in
  connectDB oids' st' = st'
  ∧ users st' ≠ [] ∧ categories st' ≠ []
  ∧ (users st ≠ [] → users st' = users st)
  ∧ (categories st ≠ [] → categories st' = categories st)
  ∧ (categories st = [] →
     (λ c, get c "id") <$> categories st'
     = VStr <$> ["cat1"; "cat2"; "cat3"; "cat4"; "cat5"])
  ∧ containers st' = containers st ∧ items st' = items st
  ∧ containerAccess st' = containerAccess st
  ∧ NoAuth.connectDB oids' (NoAuth.connectDB oids old) = NoAuth.connectDB oids old.
Proof.
  intros st'. subst st'. unfold connectDB, NoAuth.connectDB, countDocuments.
  rewrite !find_all. cbn [users categories containers items containerAccess].
  repeat split.
  - destruct (categories st) as [|c cs] eqn:Hc, (users st) as [|u us] eqn:Hu;
      cbn [length Nat.eqb];
      by rewrite ?(not_empty _ (seeded_categories _ _)),
           ?(not_empty _ (seeded_user _ _ _)).
  - destruct (users st); [apply seeded_user|done].
  - destruct (categories st); [apply seeded_categories|done].
  - intros H. by rewrite (not_empty _ H).
  - intros H. by rewrite (not_empty _ H).
  - intros ->. by vm_compute.
  - destruct (NoAuth.categories old) as [|c cs] eqn:Hc; cbn [length Nat.eqb].
    + cbn [NoAuth.categories].
      by rewrite (not_empty _ (seeded_categories _ _)).
    + by rewrite Hc.
Qed.

Lemma connectDB_seeds_once_witness :
  users (connectDB (λ _, "oid") warehouse) = users warehouse.
Proof.
  apply (connectDB_seeds_once (λ _, "oid") (λ _, "oid") warehouse
           (NoAuth.mkStore [] [] [])).
  done.
Defined.

(** X20: on a database without users, after [connectDB] the code "0000"
    logs in the default administrator, whose id passes [authMiddleware]
    and [adminOnly]. *)
Theorem fresh_database_has_admin (oids : nat → string) (env : Env) (st : Store) :
  users st = [] →
  let st' := connectDB oids st in
  (∃ u, (handle env st' POST_auth_login (login_request (VStr "0000"))).2
        = mkResponse 200 (BObj [("user", FDoc u)])
        ∧ get u "id" = VStr "u_admin" ∧ get u "isAdmin" = VBool true
        ∧ u !! "code" = None)
  ∧ (∃ admin, authMiddleware st' (request_as "u_admin") = inr admin
              ∧ adminOnly admin = None).
Proof.
  intros Hu st'. subst st'. unfold connectDB, countDocuments.
  rewrite Hu, find_all. cbn [length Nat.eqb].
  set (admin := to_bson (with_id (oids 5%nat) default_admin)). split.
  - exists (delete "_id" (rest_without ["code"] admin)).
    split; [reflexivity|]. split; [reflexivity|]. split; reflexivity.
  - exists admin. split; reflexivity.
Qed.

Lemma fresh_database_has_admin_witness :
  ∃ admin, authMiddleware (connectDB (λ _, "oid") empty_store) (request_as "u_admin")
           = inr admin ∧ adminOnly admin = None.
Proof.
  apply (fresh_database_has_admin (λ _, "oid") sample_env empty_store).
  reflexivity.
Defined.

(** ** Login codes *)

Lemma active_codes_cons (u : doc) us :
  active_codes (u :: us)
  = if bool_decide (u !! "isActive" = Some (VBool true))
    then u !! "code" :: active_codes us else active_codes us.
Proof. unfold active_codes. cbn [List.filter]. by case_bool_decide. Qed.

Lemma active_codes_app us1 us2 :
  active_codes (us1 ++ us2) = (active_codes us1 ++ active_codes us2)%list.
Proof. unfold active_codes. by rewrite List.filter_app, fmap_app. Qed.

Lemma active_codes_sublist us1 us2 :
  us1 `sublist_of` us2 → active_codes us1 `sublist_of` active_codes us2.
Proof.
  induction 1 as [|u l1 l2 _ IH|u l1 l2 _ IH]; [done| |];
    rewrite !active_codes_cons; case_bool_decide;
    first [by apply sublist_skip|by apply sublist_cons|done].
Qed.

Lemma elem_of_active_codes x us :
  x ∈ active_codes us
  ↔ ∃ u, u ∈ us ∧ u !! "isActive" = Some (VBool true) ∧ u !! "code" = x.
Proof.
  unfold active_codes. rewrite list_elem_of_fmap. split.
  - intros (u & -> & [Hu Hact]%elem_of_filter_bool). exists u.
    by apply bool_decide_eq_true in Hact.
  - intros (u & Hu & Hact & <-). exists u. split; [done|].
    apply elem_of_filter_bool. split; [done|]. by apply bool_decide_eq_true.
Qed.

(** A code that passed the check of POST /auth/activate is no active
    user's. *)
Lemma free_code code us :
  truthy code = true →
  findOne [("code", code); ("isActive", VBool true)] us = None →
  Some code ∉ active_codes us.
Proof.
  intros Hc Hfree (u & Hu & Hact & Hcode)%elem_of_active_codes.
  destruct (truthy_not_null _ Hc) as [? ?].
  rewrite findOne_None in Hfree. specialize (Hfree u Hu).
  assert (matches [("code", code); ("isActive", VBool true)] u = true) as Hm
    by (by apply matches_two).
  congruence.
Qed.

Lemma activation_fields code (d : doc) :
  (activation code ∪ d) !! "isActive" = Some (VBool true)
  ∧ (activation code ∪ d) !! "code" = Some code.
Proof. split; by apply lookup_union_Some_l. Qed.

Lemma invitation_fields env (d : doc) :
  (invitation env ∪ d) !! "isActive" = Some (VBool false).
Proof. by apply lookup_union_Some_l. Qed.

Lemma updateOne_cons q upd d (l : list doc) :
  updateOne q upd (d :: l)
  = if matches q d then (upd ∪ d) :: l else d :: updateOne q upd l.
Proof. done. Qed.

Lemma activated_codes q code us x :
  x ∈ active_codes (updateOne q (activation code) us) →
  x = Some code ∨ x ∈ active_codes us.
Proof.
  induction us as [|d us IH]; [by right|]. rewrite updateOne_cons.
  destruct (activation_fields code d) as [Hact Hcode].
  destruct (matches q d).
  - rewrite !active_codes_cons, Hact, Hcode, bool_decide_eq_true_2 by done.
    intros [->|Hx]%elem_of_cons; [by left|]. right.
    case_bool_decide; [by apply elem_of_cons; right|done].
  - rewrite !active_codes_cons. case_bool_decide; [|done].
    intros [->|Hx]%elem_of_cons; [right; apply list_elem_of_here|].
    destruct (IH Hx); [by left|right; by apply elem_of_cons; right].
Qed.

Lemma activation_keeps_codes_unique q code us :
  Some code ∉ active_codes us → NoDup (active_codes us) →
  NoDup (active_codes (updateOne q (activation code) us)).
Proof.
  induction us as [|d us IH]; [done|]. rewrite updateOne_cons.
  destruct (activation_fields code d) as [Hact Hcode].
  destruct (matches q d).
  - rewrite !active_codes_cons, Hact, Hcode.
    rewrite (bool_decide_eq_true_2 (Some (VBool true) = Some (VBool true))) by done.
    case_bool_decide.
    + intros Hfree [_ Hnd]%NoDup_cons. apply NoDup_cons. split; [|done].
      intros ?. apply Hfree. by apply elem_of_cons; right.
    + intros Hfree Hnd. by apply NoDup_cons.
  - rewrite !active_codes_cons. case_bool_decide; [|done].
    intros Hfree [Hd Hnd]%NoDup_cons. apply NoDup_cons. split.
    + intros [Heq|Hin]%activated_codes; [|done].
      apply Hfree. rewrite Heq. apply list_elem_of_here.
    + apply IH; [|done]. intros ?. apply Hfree. by apply elem_of_cons; right.
Qed.

Lemma reset_codes q env us :
  active_codes (updateOne q (invitation env) us) `sublist_of` active_codes us.
Proof.
  induction us as [|d us IH]; [done|]. rewrite updateOne_cons.
  destruct (matches q d).
  - rewrite !active_codes_cons, invitation_fields.
    rewrite bool_decide_eq_false_2 by done.
    case_bool_decide; [by apply sublist_cons|done].
  - rewrite !active_codes_cons. case_bool_decide; [by apply sublist_skip|done].
Qed.

(** What a request does to the users. *)
Lemma users_effect env st route req :
  let us' := users (handle env st route req).1 in
  us' = users st
  ∨ (∃ d : doc, d !! "isActive" = Some (VBool false) ∧ us' = (users st ++ [d])%list)
  ∨ (∃ q code, truthy code = true
               ∧ findOne [("code", code); ("isActive", VBool true)] (users st) = None
               ∧ us' = updateOne q (activation code) (users st))
  ∨ us' `sublist_of` users st
  ∨ (∃ q, us' = updateOne q (invitation env) (users st)).
Proof.
  destruct route; cbn [handle];
    unfold as_admin, authenticated, post_auth_login, post_auth_activate,
      get_auth_invite, get_users, post_users, delete_users, post_users_reset,
      get_sync, get_containers, post_containers, put_containers, delete_containers,
      get_items, post_items, put_items, delete_items, get_categories,
      post_categories, put_categories, delete_categories, post_container_access,
      delete_container_access, get_container_access, get_search;
    repeat case_match; cbn [fst users];
    first
      [ by left
      | do 3 right; left; apply deleteOne_sublist
      | do 4 right; by eexists
      | idtac ].
  - right; right; left. eexists _, _. split; [|split; [eassumption|reflexivity]].
    by destruct (truthy (get (rbody req) "inviteToken")),
         (truthy (get (rbody req) "code")).
  - right; right; left. eexists _, _. split; [|split; [eassumption|reflexivity]].
    by destruct (truthy (get (rbody req) "inviteToken")),
         (truthy (get (rbody req) "code")).
  - right; left. eexists. split; [|reflexivity].
    apply (stored_user_fields env (get (rbody req) "name")
             (get (rbody req) "isAdmin")).
Qed.

Lemma unique_codes_preserved env st route req :
  unique_codes st → unique_codes (handle env st route req).1.
Proof.
  unfold unique_codes. intros Hnd.
  destruct (users_effect env st route req)
    as [->|[(d & Hd & ->)|[(q & code & Hc & Hfree & ->)|[Hsub|[q ->]]]]].
  - done.
  - rewrite active_codes_app, active_codes_cons, Hd.
    rewrite bool_decide_eq_false_2 by done. by rewrite app_nil_r.
  - apply activation_keeps_codes_unique; [by apply free_code|done].
  - eapply sublist_NoDup; [exact Hnd|by apply active_codes_sublist].
  - eapply sublist_NoDup; [exact Hnd|apply reset_codes].
Qed.

(** X21: when no two active users share a code, none do after
    [connectDB] nor after any sequence of requests. *)
Theorem active_codes_stay_unique (oids : nat → string)
    (reqs : list (Env * Route * Request)) (st : Store) :
  unique_codes st →
  unique_codes (connectDB oids st) ∧ unique_codes (run reqs st).
Proof.
  intros Hst. split.
  - unfold unique_codes, connectDB, countDocuments in *.
    cbn [users]. rewrite find_all. destruct (users st) as [|u us]; [|done].
    cbn [length Nat.eqb]. unfold insertOne. cbn [app].
    rewrite active_codes_cons. case_bool_decide; [|constructor].
    apply NoDup_singleton.
  - revert st Hst. unfold run.
    induction reqs as [|r reqs IH]; intros st Hst; [done|].
    apply IH. by apply unique_codes_preserved.
Qed.

Lemma active_codes_stay_unique_witness :
  unique_codes
    (run [(sample_env, POST_auth_activate,
           activate_request (VStr "tok") (VStr "4321"))] invited).
Proof.
  apply (active_codes_stay_unique (λ _, "oid")
           [(sample_env, POST_auth_activate,
             activate_request (VStr "tok") (VStr "4321"))] invited).
  unfold unique_codes. compute_done.
Defined.

Lemma same_active_code (us : list doc) (u d : doc) :
  NoDup (active_codes us) → u ∈ us → d ∈ us →
  u !! "isActive" = Some (VBool true) → d !! "isActive" = Some (VBool true) →
  u !! "code" = d !! "code" → u = d.
Proof.
  intros Hnd Hu Hd Hua Hda Hcode.
  induction us as [|x us IH]; [by apply elem_of_nil in Hu|].
  rewrite active_codes_cons in Hnd.
  apply elem_of_cons in Hu as [->|Hu], Hd as [->|Hd]; [done| | |].
  - rewrite Hua, bool_decide_eq_true_2 in Hnd by done.
    apply NoDup_cons in Hnd as [Hnot _]. destruct Hnot.
    apply elem_of_active_codes. by exists d.
  - rewrite Hda, bool_decide_eq_true_2 in Hnd by done.
    apply NoDup_cons in Hnd as [Hnot _]. destruct Hnot.
    apply elem_of_active_codes. by exists u.
  - apply IH; [|done|done]. case_bool_decide; [by apply NoDup_cons in Hnd as [_ ?]|done].
Qed.

(** X22: when no two active users share a code, the user returned by a
    login with a code sent as a string is the only active user with that
    code. *)
Theorem login_identifies_one_user (env : Env) (st : Store) (req : Request)
    (s : string) :
  unique_codes st →
  get (rbody req) "code" = VStr s →
  status (handle env st POST_auth_login req).2 = 200 →
  ∃ u, u ∈ users st
       ∧ payload (handle env st POST_auth_login req).2
         = BObj [("user", FDoc (delete "_id" (rest_without ["code"] u)))]
       ∧ ∀ d, d ∈ users st → get d "isActive" = VBool true →
              get d "code" = VStr s → d = u.
Proof.
  intros Hnd Hcode. cbn [handle]. unfold post_auth_login. rewrite Hcode.
  destruct (truthy (VStr s)) eqn:Hc; cbn [negb]; [|done].
  destruct (findOne _ (users st)) as [u|] eqn:Hfind; [|done].
  intros _. apply findOne_Some in Hfind as [Hu Hm].
  apply matches_two in Hm as [Hucode Hact]; [|done..].
  exists u. split; [done|]. split; [done|].
  intros d Hd Hda Hdc. apply lookup_get in Hda; [|done].
  apply lookup_get in Hdc; [|done].
  apply (same_active_code (users st)); try done. congruence.
Qed.

Lemma login_identifies_one_user_witness :
  ∃ u, u ∈ users warehouse
       ∧ payload (handle sample_env warehouse POST_auth_login
                    (login_request (VStr "1234"))).2
         = BObj [("user", FDoc (delete "_id" (rest_without ["code"] u)))]
       ∧ ∀ d, d ∈ users warehouse → get d "isActive" = VBool true →
              get d "code" = VStr "1234" → d = u.
Proof.
  apply (login_identifies_one_user sample_env warehouse
           (login_request (VStr "1234")) "1234").
  - unfold unique_codes. compute_done.
  - reflexivity.
  - reflexivity.
Defined.

(** ** Looking an invitation up and activating it *)

Lemma matches_own_id (u : doc) :
  u !! "id" ≠ Some VUndef → matches [("id", get u "id")] u = true.
Proof.
  intros Hid. unfold matches, field_matches, get. cbn [forallb fst snd].
  rewrite andb_true_r. destruct (u !! "id") as [v|]; cbn [default from_option id].
  - destruct v; try done;
      rewrite ?orb_true_iff, ?bool_decide_eq_true; auto.
  - rewrite orb_true_iff, !bool_decide_eq_true. auto.
Qed.

Lemma updated_is_found q upd (l : list doc) u :
  u ∈ l → matches q u = true → (∀ d : doc, matches q (upd ∪ d) = matches q d) →
  is_Some (findOne q (updateOne q upd l)).
Proof.
  intros Hu Hm Hkeep.
  destruct (first_match q l) as [Hnone|(l1 & d & l2 & -> & Hd & Hl1)].
  - rewrite (Hnone u Hu) in Hm. discriminate.
  - rewrite updateOne_first, (findOne_first _ l1 (upd ∪ d) l2); [by eexists|done| |done..].
    by rewrite Hkeep.
Qed.

Lemma activation_keeps_id code v (d : doc) :
  matches [("id", v)] (activation code ∪ d) = matches [("id", v)] d.
Proof.
  apply matches_ext. intros kv ->%list_elem_of_singleton.
  apply activation_lookup. compute_done.
Qed.

(** X23: what GET /auth/invite/:token answers for a token tells what
    activating with that token and a well-formed string code that no
    active user has will answer: the two statuses are the same (200, 404
    for an unknown or used token, 400 for an expired invitation); the
    lookup never changes the store, and an activation that is refused
    does not either. *)
Theorem invite_check_predicts_activation (env : Env) (st : Store) (T s : string) :
  T ≠ "" →
  code_accepted (VStr s) = true →
  Forall (λ u, ¬ (get u "code" = VStr s ∧ get u "isActive" = VBool true)) (users st) →
  Forall (λ u, u !! "id" ≠ Some VUndef) (users st) →
  let look := handle env st GET_auth_invite (invite_request T) in
  let act := handle env st POST_auth_activate (activate_request (VStr T) (VStr s)) in
  look.1 = st
  ∧ status act.2 = status look.2
  ∧ (status look.2 ≠ 200 → act.1 = st).
Proof.
  intros HT Hacc Hfree Hids look act. subst look act. cbn [handle].
  unfold get_auth_invite, post_auth_activate.
  destruct (activate_body (VStr T) (VStr s)) as [-> ->].
  assert (truthy (VStr T) = true) as ->
    by (cbn; by destruct (String.eqb_spec T "")).
  assert (truthy (VStr s) = true) as ->.
  { destruct s; [discriminate|done]. }
  rewrite Hacc. cbn [negb orb param invite_request].
  rewrite (proj2 (findOne_None [("code", VStr s); ("isActive", VBool true)] (users st))).
  2:{ intros d Hd. rewrite Forall_forall in Hfree.
      destruct (matches _ d) eqn:Hm; [|done].
      apply matches_two in Hm as [Hc Ha]; [|done..].
      apply get_Some in Hc, Ha. by destruct (Hfree d Hd). }
  destruct (findOne [("inviteToken", VStr T); ("isActive", VBool false)] (users st))
    as [user|] eqn:Hfind; [|by repeat split].
  destruct (invite_expired env user); [by repeat split|].
  apply findOne_Some in Hfind as [Huser _].
  rewrite Forall_forall in Hids.
  destruct (updated_is_found [("id", get user "id")] (activation (VStr s))
              (users st) user Huser (matches_own_id user (Hids user Huser))
              (activation_keeps_id (VStr s) (get user "id"))) as [updated ->].
  by repeat split.
Qed.

Lemma invite_check_predicts_activation_witness :
  status (handle sample_env invited POST_auth_activate
            (activate_request (VStr "tok") (VStr "4321"))).2
  = status (handle sample_env invited GET_auth_invite (invite_request "tok")).2.
Proof.
  apply (invite_check_predicts_activation sample_env invited "tok" "4321").
  - discriminate.
  - reflexivity.
  - compute_done.
  - compute_done.
Defined.

(** ** Search *)

Lemma elem_of_find_by_name m (l : list doc) d :
  d ∈ find_by_name m l ↔ d ∈ l ∧ name_matches m d.
Proof.
  unfold find_by_name, name_matches. rewrite elem_of_filter_bool. split.
  - intros [Hd Hm]. split; [done|]. destruct (get d "name"); try done. eauto.
  - intros [Hd (s & -> & Hm)]. done.
Qed.

(** X24: for every authenticated caller and a query [q] given as a
    string, GET /search returns the stored containers and the stored
    items whose name is a string that the pattern matches, all of them
    and in stored order, whoever asks: it does not look at the caller's
    access. A pattern the engine rejects is answered 500. *)
Theorem search_ignores_access (env : Env) (st : Store) (req : Request) (user : doc) :
  authMiddleware st req = inr user →
  let q := default "" (query_q req) in
  let r := handle env st GET_search req in
  r.1 = st
  ∧ (regexp env q = None → status r.2 = 500)
  ∧ (∀ m, regexp env q = Some m →
       status r.2 = 200
       ∧ docs_under "containers" r.2 `sublist_of` containers st
       ∧ docs_under "items" r.2 `sublist_of` items st
       ∧ (∀ c, c ∈ docs_under "containers" r.2 ↔ c ∈ containers st ∧ name_matches m c)
       ∧ (∀ i, i ∈ docs_under "items" r.2 ↔ i ∈ items st ∧ name_matches m i)).
Proof.
  intros Hauth q r. subst r q. cbn [handle]. unfold authenticated.
  rewrite Hauth. unfold get_search.
  destruct (regexp env _) as [m|]; (split; [done|]); split; try done.
  intros m' [= <-]. cbn. rewrite !app_nil_r.
  split; [done|]. split; [apply sublist_filter_bool|].
  split; [apply sublist_filter_bool|].
  split; intros d; apply elem_of_find_by_name.
Qed.

Lemma search_ignores_access_witness :
  container_doc "c9" VNull "u_admin"
  ∈ docs_under "containers"
      (handle plain_env warehouse GET_search (request "u_bob" "" [])).2.
Proof.
  destruct (search_ignores_access plain_env warehouse (request "u_bob" "" [])
              bob_doc eq_refl) as (_ & _ & Hfound).
  destruct (Hfound (λ _, true) eq_refl) as (_ & _ & _ & Hcs & _).
  apply Hcs. split; [compute_done|]. exists "c9". split; reflexivity.
Defined.

(** ** The two servers side by side *)

(** X25: on the routes that read the inventory an administrator gets
    from this server the answer the earlier server gave on the same
    containers, items and categories, and so does every authenticated
    caller on GET /items, GET /categories and GET /search. *)
Theorem reads_as_before (env : Env) (st : Store) (route : Route) (req : Request)
    (user : doc) (r0 : NoAuth.Store * Response) :
  authMiddleware st req = inr user →
  truthy (get user "isAdmin") = true
  ∨ (route ≠ GET_sync ∧ route ≠ GET_containers) →
  inventory_read env (forget st) route req = Some r0 →
  handle env st route req = (st, r0.2) ∧ r0.1 = forget st.
Proof.
  intros Hauth Hadmin Hroute.
  destruct route; try discriminate; injection Hroute as <-;
    cbn [handle]; unfold authenticated; rewrite Hauth;
    unfold get_sync, get_containers, get_items, get_categories, get_search,
      NoAuth.get_sync, NoAuth.get_containers, NoAuth.get_items,
      NoAuth.get_categories, NoAuth.get_search, forget;
    cbn [NoAuth.containers NoAuth.items NoAuth.categories].
  - destruct Hadmin as [-> | [? _]]; done.
  - destruct Hadmin as [-> | [_ ?]]; done.
  - done.
  - done.
  - by destruct (regexp env _).
Qed.

Lemma reads_as_before_witness :
  handle sample_env warehouse GET_items (request "u_bob" "" [])
  = (warehouse, (NoAuth.get_items (forget warehouse)).2).
Proof.
  apply (reads_as_before sample_env warehouse GET_items (request "u_bob" "" [])
           bob_doc (NoAuth.get_items (forget warehouse))).
  - reflexivity.
  - right. split; discriminate.
  - reflexivity.
Defined.

(** X26: deleting a container, an item or a category through this server
    does to the containers, items and categories what the earlier server
    did, with the same answer, for every authenticated caller; this
    server removes the access rows of a deleted container besides. *)
Theorem deletes_as_before (env : Env) (st : Store) (route : Route) (req : Request)
    (user : doc) (r0 : NoAuth.Store * Response) :
  authMiddleware st req = inr user →
  inventory_delete (forget st) route req = Some r0 →
  forget (handle env st route req).1 = r0.1
  ∧ (handle env st route req).2 = r0.2
  ∧ users (handle env st route req).1 = users st
  ∧ containerAccess (handle env st route req).1 `sublist_of` containerAccess st.
Proof.
  intros Hauth Hroute.
  destruct route; try discriminate; injection Hroute as <-;
    cbn [handle]; unfold authenticated; rewrite Hauth;
    unfold delete_containers, delete_items, delete_categories,
      NoAuth.delete_containers, NoAuth.delete_items, NoAuth.delete_categories, forget;
    cbn [NoAuth.containers NoAuth.items NoAuth.categories].
  - destruct (0 <? countDocuments _ (containers st))%nat; [done|].
    destruct (0 <? countDocuments _ (items st))%nat; [done|].
    repeat split. apply deleteMany_sublist.
  - done.
  - done.
Qed.

Lemma deletes_as_before_witness :
  forget (handle sample_env warehouse DELETE_items (request "u_bob" "i1" [])).1
  = (NoAuth.delete_items (forget warehouse) (request "u_bob" "i1" [])).1.
Proof.
  apply (deletes_as_before sample_env warehouse DELETE_items
           (request "u_bob" "i1" []) bob_doc
           (NoAuth.delete_items (forget warehouse) (request "u_bob" "i1" []))).
  - reflexivity.
  - reflexivity.
Defined.
